(** * Task2.py: GameDataEnricher

    A shallow embedding of [src/Task2.py] (class [GameDataEnricher]) and the
    properties of its response normalisation and of its row loop.

    Text.  A Python [str] is modelled as a [string] whose characters are read
    as the code points U+0000..U+00FF; [isspace] and [lower_char] are Python's
    [str.isspace] and [str.lower] on that range.  Code points above U+00FF
    are outside the model.

    Effects.  The model service, the console, [time.sleep] and the mutable
    [DataFrame] objects live in a [world]; methods are computations in a
    state-and-exception monad [M] over it. *)

From Stdlib Require Import Ascii String NArith QArith DecimalString.
From stdpp Require Import base option list gmap strings.

(** * The program *)

(** ** Characters and strings *)

Module Str.

Definition code (c : ascii) : N := N_of_ascii c.

(** [str.isspace] on U+0000..U+00FF: TAB..CR, FS..US, SPACE, NEL, NBSP. *)
Definition isspace (c : ascii) : bool :=
  let n := code c in
  ((9 <=? n)%N && (n <=? 13)%N) || ((28 <=? n)%N && (n <=? 32)%N)
  || (n =? 133)%N || (n =? 160)%N.

(** [str.lower] on one code point of U+0000..U+00FF: A..Z and the Latin-1
    capitals U+00C0..U+00DE (the multiplication sign U+00D7 excepted). *)
Definition lower_char (c : ascii) : ascii :=
  let n := code c in
  if ((65 <=? n)%N && (n <=? 90)%N)
     || ((192 <=? n)%N && (n <=? 222)%N && negb (n =? 215)%N)
  then ascii_of_N (n + 32) else c.

Fixpoint lower (s : string) : string :=
  match s with
  | EmptyString => EmptyString
  | String c s' => String (lower_char c) (lower s')
  end.

Definition is_empty (s : string) : bool :=
  match s with EmptyString => true | String _ _ => false end.

Fixpoint lstrip (s : string) : string :=
  match s with
  | EmptyString => EmptyString
  | String c s' => if isspace c then lstrip s' else s
  end.

Fixpoint rstrip (s : string) : string :=
  match s with
  | EmptyString => EmptyString
  | String c s' =>
      let r := rstrip s' in
      if is_empty r && isspace c then EmptyString else String c r
  end.

(** [s.strip()] *)
Definition strip (s : string) : string := rstrip (lstrip s).

(** [s.split()]: maximal runs of non-whitespace characters, in order.
    [cur] is the run read so far. *)
Fixpoint split_go (cur : string) (s : string) : list string :=
  match s with
  | EmptyString => if is_empty cur then [] else [cur]
  | String c s' =>
      if isspace c
      then (if is_empty cur then split_go EmptyString s'
            else cur :: split_go EmptyString s')
      else split_go (cur +:+ String c EmptyString) s'
  end.

Definition split (s : string) : list string := split_go EmptyString s.

(** [s.startswith(p)] *)
Fixpoint startswith (p s : string) : bool :=
  match p, s with
  | EmptyString, _ => true
  | String _ _, EmptyString => false
  | String a p', String b s' => if ascii_dec a b then startswith p' s' else false
  end.

(** [needle in s] for strings *)
Fixpoint contains (needle s : string) : bool :=
  startswith needle s
  || match s with
     | EmptyString => false
     | String _ s' => contains needle s'
     end.

(** [sep.join(ws)] *)
Fixpoint join (sep : string) (ws : list string) : string :=
  match ws with
  | [] => EmptyString
  | [w] => w
  | w :: ws' => w +:+ sep +:+ join sep ws'
  end.

(** [s[:n]] *)
Fixpoint slice_to (n : nat) (s : string) : string :=
  match n, s with
  | O, _ => EmptyString
  | _, EmptyString => EmptyString
  | S n', String c s' => String c (slice_to n' s')
  end.

(** [s * n] *)
Fixpoint times (s : string) (n : nat) : string :=
  match n with
  | O => EmptyString
  | S n' => s +:+ times s n'
  end.

(** [str(n)] for a non-negative integer *)
Definition of_nat (n : nat) : string := NilEmpty.string_of_uint (Nat.to_uint n).

Definition nl : string := String "010"%char EmptyString.
Definition tab : string := String "009"%char EmptyString.
Definition dq : string := String "034"%char EmptyString.

Fixpoint all_space (s : string) : bool :=
  match s with
  | EmptyString => true
  | String c s' => isspace c && all_space s'
  end.

Fixpoint no_space (s : string) : bool :=
  match s with
  | EmptyString => true
  | String c s' => negb (isspace c) && no_space s'
  end.

(** A word: a non-empty run without whitespace. *)
Definition is_word (w : string) : Prop := w ≠ EmptyString ∧ no_space w = true.

End Str.

(** ** Exceptions *)

(** The exceptions of the model, all of them instances of [Exception]. *)
Inductive exn : Type :=
| ServiceError (msg : string)   (* whatever [generate_content] or [response.text] raises *)
| IndexError (msg : string)
| KeyError (key : string)
| ValueError (msg : string)
| DanglingRef.                  (* a reference to no object: cannot arise in Python *)

(** [str(e)] *)
Definition exn_str (e : exn) : string :=
  match e with
  | ServiceError m => m
  | IndexError m => m
  | KeyError k => "'" +:+ k +:+ "'"
  | ValueError m => m
  | DanglingRef => EmptyString
  end.

Definition result (A : Type) : Type := exn + A.

(** [l[0]] *)
Definition list_first (l : list string) : result string :=
  match l with
  | [] => inl (IndexError "list index out of range")
  | x :: _ => inr x
  end.

(** ** Response normalisation (the bodies of the three [try] blocks) *)

(** Lines 46-51: [response.text] to the genre. *)
Definition genre_of_text (text : string) : result string :=
  let genre := Str.strip text in
  if Str.contains " " genre
  then list_first (Str.split genre)
  else inr genre.

(** Lines 70-76: [response.text] to the description. *)
Definition normalize_description (text : string) : string :=
  let description := Str.strip text in
  let words := Str.split description in
  if bool_decide (30 < length words)
  then Str.join " " (take 29 words) +:+ "."
  else description.

Definition valid_modes : list string := ["Singleplayer"; "Multiplayer"; "Both"].

(** Lines 97-111: [response.text] to the player mode. *)
Definition normalize_player_mode (text : string) : string :=
  let mode := Str.strip text in
  if Str.contains "single" (Str.lower mode) then "Singleplayer"
  else if Str.contains "multi" (Str.lower mode)
          && negb (Str.contains "both" (Str.lower mode)) then "Multiplayer"
  else if Str.contains "both" (Str.lower mode) then "Both"
  else if bool_decide (mode ∈ valid_modes) then mode
  else "Both".

(** [normalize_player_mode] with the [if mode in valid_modes] step removed. *)
Definition normalize_player_mode_no_exact (text : string) : string :=
  let mode := Str.strip text in
  if Str.contains "single" (Str.lower mode) then "Singleplayer"
  else if Str.contains "multi" (Str.lower mode)
          && negb (Str.contains "both" (Str.lower mode)) then "Multiplayer"
  else if Str.contains "both" (Str.lower mode) then "Both"
  else "Both".

(** The genre for a response text, the [except] branch included. *)
Definition normalize_genre (text : string) : string :=
  match genre_of_text text with
  | inr genre => genre
  | inl _ => "Unknown"
  end.

(** What the code looks a needle up in: the trimmed, lower-cased response. *)
Definition mentions (needle raw : string) : bool :=
  Str.contains needle (Str.lower (Str.strip raw)).

(** ** DataFrames *)

(** A [DataFrame] as [pd.read_csv] gives it: the default index
    [RangeIndex(df_len)], and the columns in their order, with text cells.
    [df_wf] is what holds of every such frame: the column names are distinct
    and each column has one value per index entry. *)
Record DataFrame : Type := mkDataFrame {
  df_len : nat;
  df_columns : list (string * list string)
}.

Definition df_wf (d : DataFrame) : Prop :=
  NoDup (df_columns d).*1 ∧
  Forall (λ col, length col.2 = df_len d) (df_columns d).

#[global] Instance df_wf_dec (d : DataFrame) : Decision (df_wf d).
Proof. unfold df_wf. apply _. Defined.

Definition column_names (d : DataFrame) : list string := (df_columns d).*1.

(** A row as [iterrows] yields it: the cells of one index entry, by column. *)
Definition Series : Type := list (string * string).

Fixpoint assoc {A : Type} (key : string) (l : list (string * A)) : option A :=
  match l with
  | [] => None
  | (k, v) :: l' => if decide (k = key) then Some v else assoc key l'
  end.

(** [df[name]] read as a list *)
Definition column (name : string) (d : DataFrame) : option (list string) :=
  assoc name (df_columns d).

Definition row_at (d : DataFrame) (i : nat) : Series :=
  map (λ col, (col.1, default EmptyString (col.2 !! i))) (df_columns d).

(** [df.iterrows()] *)
Definition iterrows (d : DataFrame) : list (nat * Series) :=
  map (λ i, (i, row_at d i)) (seq 0 (df_len d)).

(** [row[key]] *)
Definition series_getitem (row : Series) (key : string) : result string :=
  match assoc key row with
  | Some v => inr v
  | None => inl (KeyError key)
  end.

(** The columns after [df[name] = values]: an existing column is replaced where
    it stands, a new one is added last. *)
Fixpoint set_column (name : string) (values : list string)
    (cols : list (string * list string)) : list (string * list string) :=
  match cols with
  | [] => [(name, values)]
  | (k, old) :: cols' =>
      if decide (k = name) then (k, values) :: cols'
      else (k, old) :: set_column name values cols'
  end.

(** [df[name] = values] for a list [values].  (On a frame without rows pandas
    takes a non-empty list and re-indexes the frame; here that is the
    [ValueError] too.  [process_dataframe] assigns lists of [df_len] values
    only.) *)
Definition df_setitem (d : DataFrame) (name : string) (values : list string)
    : result DataFrame :=
  if decide (length values = df_len d)
  then inr (mkDataFrame (df_len d) (set_column name values (df_columns d)))
  else inl (ValueError ("Length of values (" +:+ Str.of_nat (length values)
                       +:+ ") does not match length of index ("
                       +:+ Str.of_nat (df_len d) +:+ ")")).

(** [df[name][i]] *)
Definition cell (name : string) (d : DataFrame) (i : nat) : option string :=
  column name d ≫= (λ vs, vs !! i).

Definition new_columns : list string := ["genre"; "short_description"; "player_mode"].

Definition has_title (row : nat * Series) (game_title : string) : Prop :=
  series_getitem row.2 "game_title" = inr game_title.

(** ** The enricher object *)

Record GameDataEnricher : Type := mkEnricher {
  api_key : string;
  api_delay : Q
}.

Definition no_api_key : string :=
  "API key not found. Please provide an API key or set GOOGLE_API_KEY environment variable."
  +:+ Str.nl +:+ "Get your API key from: https://makersuite.google.com/app/apikey".

(** [__init__]: [env_key] is [os.getenv('GOOGLE_API_KEY')]; configuring the
    client library and naming the model are left to the service. *)
Definition init (key env_key : option string) : result GameDataEnricher :=
  let k := match key with
           | Some k => if Str.is_empty k then env_key else Some k
           | None => env_key
           end in
  match k with
  | Some k =>
      if Str.is_empty k then inl (ValueError no_api_key)
      else inr (mkEnricher k 5)
  | None => inl (ValueError no_api_key)
  end.

(** ** Prompts *)

Definition indent : string := "        ".

Definition genre_prompt (game_title : string) : string :=
  Str.nl
  +:+ indent +:+ "Classify the video game " +:+ Str.dq +:+ game_title +:+ Str.dq
      +:+ " into ONE single-word genre." +:+ Str.nl
  +:+ indent +:+ "Choose from: Action, RPG, Sports, Strategy, Simulation, Adventure, " +:+ Str.nl
  +:+ indent +:+ "Puzzle, Racing, Fighting, Horror, Platformer, Shooter, MMORPG, Sandbox, Card" +:+ Str.nl
  +:+ indent +:+ Str.nl
  +:+ indent +:+ "Respond with ONLY the genre word, nothing else." +:+ Str.nl
  +:+ indent +:+ Str.nl
  +:+ indent +:+ "Game: " +:+ game_title +:+ Str.nl
  +:+ indent +:+ "Genre:" +:+ Str.nl
  +:+ indent.

Definition description_prompt (game_title : string) : string :=
  Str.nl
  +:+ indent +:+ "Write a short description for the video game " +:+ Str.dq +:+ game_title
      +:+ Str.dq +:+ "." +:+ Str.nl
  +:+ indent +:+ "The description must be under 30 words." +:+ Str.nl
  +:+ indent +:+ "Be concise and focus on the core gameplay and unique features." +:+ Str.nl
  +:+ indent +:+ "Do not include the game title in the description." +:+ Str.nl
  +:+ indent +:+ Str.nl
  +:+ indent +:+ "Game: " +:+ game_title +:+ Str.nl
  +:+ indent +:+ "Description:" +:+ Str.nl
  +:+ indent.

Definition player_mode_prompt (game_title : string) : string :=
  Str.nl
  +:+ indent +:+ "Determine the player mode for the video game " +:+ Str.dq +:+ game_title
      +:+ Str.dq +:+ "." +:+ Str.nl
  +:+ indent +:+ Str.nl
  +:+ indent +:+ "Respond with ONLY ONE of these three options:" +:+ Str.nl
  +:+ indent +:+ "- Singleplayer (if the game is primarily single-player only)" +:+ Str.nl
  +:+ indent +:+ "- Multiplayer (if the game is primarily multiplayer only)" +:+ Str.nl
  +:+ indent +:+ "- Both (if the game supports both single-player and multiplayer modes)" +:+ Str.nl
  +:+ indent +:+ Str.nl
  +:+ indent +:+ "Game: " +:+ game_title +:+ Str.nl
  +:+ indent +:+ "Player Mode:" +:+ Str.nl
  +:+ indent.

(** ** The world and the monad of methods *)

Inductive event : Type :=
| Generate (prompt : string) (outcome : result string)  (* one model call and what it gave *)
| Sleep (seconds : Q)
| Print (line : string).

Definition loc : Type := nat.

Record world (Svc : Type) : Type := mkWorld {
  heap : gmap loc DataFrame;   (* the DataFrame objects, by reference *)
  service : Svc;               (* the state of the model service *)
  trace : list event           (* what has happened so far, oldest first *)
}.
Arguments mkWorld {Svc} _ _ _.
Arguments heap {Svc} _.
Arguments service {Svc} _.
Arguments trace {Svc} _.

Definition M (Svc A : Type) : Type := world Svc → result A * world Svc.

Definition ret {Svc A} (a : A) : M Svc A := λ w, (inr a, w).

Definition raise {Svc A} (e : exn) : M Svc A := λ w, (inl e, w).

Definition bind {Svc A B} (m : M Svc A) (k : A → M Svc B) : M Svc B :=
  λ w, match m w with
       | (inr a, w') => k a w'
       | (inl e, w') => (inl e, w')
       end.

(** [try: m  except Exception as e: h e] *)
Definition try_except {Svc A} (m : M Svc A) (h : exn → M Svc A) : M Svc A :=
  λ w, match m w with
       | (inr a, w') => (inr a, w')
       | (inl e, w') => h e w'
       end.

Definition lift {Svc A} (r : result A) : M Svc A := λ w, (r, w).

Definition emit {Svc} (e : event) : M Svc unit :=
  λ w, (inr tt, mkWorld (heap w) (service w) (trace w ++ [e])).

Declare Scope py_scope.
Delimit Scope py_scope with py.
Notation "x <- m ;; k" := (bind m (λ x, k))
  (at level 100, m at next level, right associativity) : py_scope.
Notation "m ;;; k" := (bind m (λ _, k))
  (at level 100, right associativity) : py_scope.

Definition print {Svc} (line : string) : M Svc unit := emit (Print line).

(** [time.sleep(seconds)] *)
Definition sleep {Svc} (seconds : Q) : M Svc unit := emit (Sleep seconds).

(** [df] dereferenced *)
Definition deref {Svc} (df : loc) : M Svc DataFrame :=
  λ w, match heap w !! df with
       | Some d => (inr d, w)
       | None => (inl DanglingRef, w)
       end.

(** [df[name] = values]: the object [df] refers to is updated in place. *)
Definition setitem {Svc} (df : loc) (name : string) (values : list string) : M Svc unit :=
  λ w, match heap w !! df with
       | Some d =>
           match df_setitem d name values with
           | inr d' => (inr tt, mkWorld (<[df := d']> (heap w)) (service w) (trace w))
           | inl e => (inl e, w)
           end
       | None => (inl DanglingRef, w)
       end.

Section Enricher.

Context {Svc : Type}.

(** The model service: from its state and a prompt, the text of the response
    or the exception raised, and its next state. *)
Variable generate : Svc → string → result string * Svc.

Local Open Scope py_scope.

(** [self.model.generate_content(prompt).text] *)
Definition generate_content (prompt : string) : M Svc string :=
  λ w, let '(r, s') := generate (service w) prompt in
       (r, mkWorld (heap w) s' (trace w ++ [Generate prompt r])).

Definition classify_genre (self : GameDataEnricher) (game_title : string) : M Svc string :=
  let prompt := genre_prompt game_title in
  try_except
    (text <- generate_content prompt ;;
     lift (genre_of_text text))
    (λ e,
      print ("Error classifying genre for " +:+ game_title +:+ ": " +:+ exn_str e) ;;;
      ret "Unknown").

Definition generate_description (self : GameDataEnricher) (game_title : string) : M Svc string :=
  let prompt := description_prompt game_title in
  try_except
    (text <- generate_content prompt ;;
     ret (normalize_description text))
    (λ e,
      print ("Error generating description for " +:+ game_title +:+ ": " +:+ exn_str e) ;;;
      ret "A video game experience.").

Definition determine_player_mode (self : GameDataEnricher) (game_title : string) : M Svc string :=
  let prompt := player_mode_prompt game_title in
  try_except
    (text <- generate_content prompt ;;
     ret (normalize_player_mode text))
    (λ e,
      print ("Error determining player mode for " +:+ game_title +:+ ": " +:+ exn_str e) ;;;
      ret "Both").

(** The three lists the loop appends to. *)
Definition lists : Type := list string * list string * list string.

(** One pass of the [for] body (lines 130-156). *)
Definition loop_body (self : GameDataEnricher) (total_games : nat)
    (idx : nat) (row : Series) (acc : lists) : M Svc lists :=
  let '(genres, descriptions, player_modes) := acc in
  game_title <- lift (series_getitem row "game_title") ;;
  print ("Processing [" +:+ Str.of_nat (idx + 1) +:+ "/" +:+ Str.of_nat total_games
         +:+ "]: " +:+ game_title) ;;;
  genre <- classify_genre self game_title ;;
  let genres := genres ++ [genre] in
  print ("  Genre: " +:+ genre) ;;;
  sleep (api_delay self) ;;;
  description <- generate_description self game_title ;;
  let descriptions := descriptions ++ [description] in
  print ("  Description: " +:+ Str.slice_to 50 description +:+ "...") ;;;
  sleep (api_delay self) ;;;
  player_mode <- determine_player_mode self game_title ;;
  let player_modes := player_modes ++ [player_mode] in
  print ("  Player Mode: " +:+ player_mode) ;;;
  sleep (api_delay self) ;;;
  print EmptyString ;;;
  ret (genres, descriptions, player_modes).

(** The [for idx, row in df.iterrows()] loop. *)
Fixpoint loop (self : GameDataEnricher) (total_games : nat)
    (rows : list (nat * Series)) (acc : lists) : M Svc lists :=
  match rows with
  | [] => ret acc
  | (idx, row) :: rows' =>
      acc' <- loop_body self total_games idx row acc ;;
      loop self total_games rows' acc'
  end.

Definition process_dataframe (self : GameDataEnricher) (df : loc) : M Svc loc :=
  d <- deref df ;;
  let total_games := df_len d in
  print ("Processing " +:+ Str.of_nat total_games +:+ " games...") ;;;
  print (Str.times "-" 50) ;;;
  out <- loop self total_games (iterrows d) ([], [], []) ;;
  let '(genres, descriptions, player_modes) := out in
  setitem df "genre" genres ;;;
  setitem df "short_description" descriptions ;;;
  setitem df "player_mode" player_modes ;;;
  ret df.

End Enricher.

(** ** What a run leaves behind *)

(** What each method returns for the outcome of its model call. *)
Definition genre_field (o : result string) : string :=
  match o with inr text => normalize_genre text | inl _ => "Unknown" end.

Definition description_field (o : result string) : string :=
  match o with inr text => normalize_description text | inl _ => "A video game experience." end.

Definition player_mode_field (o : result string) : string :=
  match o with inr text => normalize_player_mode text | inl _ => "Both" end.

(** The line an [except] branch prints. *)
Definition error_line (what game_title : string) (o : result string) : list event :=
  match o with
  | inl e => [Print (what +:+ game_title +:+ ": " +:+ exn_str e)]
  | inr _ => []
  end.

(** The outcomes of the three calls of one row. *)
Definition outcomes : Type := result string * result string * result string.

(** The events of one pass of the loop body. *)
Definition row_events (self : GameDataEnricher) (total_games idx : nat)
    (game_title : string) (o : outcomes) : list event :=
  [Print ("Processing [" +:+ Str.of_nat (idx + 1) +:+ "/" +:+ Str.of_nat total_games
          +:+ "]: " +:+ game_title);
   Generate (genre_prompt game_title) o.1.1]
  ++ error_line "Error classifying genre for " game_title o.1.1
  ++ [Print ("  Genre: " +:+ genre_field o.1.1);
      Sleep (api_delay self);
      Generate (description_prompt game_title) o.1.2]
  ++ error_line "Error generating description for " game_title o.1.2
  ++ [Print ("  Description: " +:+ Str.slice_to 50 (description_field o.1.2) +:+ "...");
      Sleep (api_delay self);
      Generate (player_mode_prompt game_title) o.2]
  ++ error_line "Error determining player mode for " game_title o.2
  ++ [Print ("  Player Mode: " +:+ player_mode_field o.2);
      Sleep (api_delay self);
      Print EmptyString].

Fixpoint loop_events (self : GameDataEnricher) (total_games : nat)
    (idxs : list nat) (titles : list string) (os : list outcomes) : list event :=
  match idxs, titles, os with
  | idx :: idxs', t :: titles', o :: os' =>
      row_events self total_games idx t o ++ loop_events self total_games idxs' titles' os'
  | _, _, _ => []
  end.

(** The model calls of a trace, and its calls and pauses. *)
Definition calls (tr : list event) : list (string * result string) :=
  omap (λ e, match e with Generate p o => Some (p, o) | _ => None end) tr.

Inductive action : Type :=
| Call (prompt : string)
| Delay (seconds : Q).

Definition schedule (tr : list event) : list action :=
  omap (λ e, match e with
             | Generate p _ => Some (Call p)
             | Sleep d => Some (Delay d)
             | Print _ => None
             end) tr.

Definition row_calls (game_title : string) (o : outcomes) : list (string * result string) :=
  [(genre_prompt game_title, o.1.1);
   (description_prompt game_title, o.1.2);
   (player_mode_prompt game_title, o.2)].

Definition row_schedule (delay : Q) (game_title : string) : list action :=
  [Call (genre_prompt game_title); Delay delay;
   Call (description_prompt game_title); Delay delay;
   Call (player_mode_prompt game_title); Delay delay].

(** The frame after the three column assignments. *)
Definition enriched (d : DataFrame) (os : list outcomes) : DataFrame :=
  mkDataFrame (df_len d)
    (set_column "player_mode" ((λ o : outcomes, player_mode_field o.2) <$> os)
       (set_column "short_description" ((λ o : outcomes, description_field o.1.2) <$> os)
          (set_column "genre" ((λ o : outcomes, genre_field o.1.1) <$> os)
             (df_columns d)))).

Section Outcomes.

Context {Svc : Type}.
Variable generate : Svc → string → result string * Svc.

(** The outcomes of the calls of one row, from the state of the service. *)
Definition row_outcomes (s : Svc) (game_title : string) : outcomes * Svc :=
  let '(og, s1) := generate s (genre_prompt game_title) in
  let '(od, s2) := generate s1 (description_prompt game_title) in
  let '(om, s3) := generate s2 (player_mode_prompt game_title) in
  ((og, od, om), s3).

Fixpoint rows_outcomes (s : Svc) (titles : list string) : list outcomes * Svc :=
  match titles with
  | [] => ([], s)
  | t :: titles' =>
      let '(o, s1) := row_outcomes s t in
      let '(os, s') := rows_outcomes s1 titles' in
      (o :: os, s')
  end.

End Outcomes.

(** ** A stub service *)

(** A service that answers from a script, one entry per call, and fails once
    the script is used up. *)
Definition scripted (s : list (result string)) (prompt : string)
    : result string * list (result string) :=
  match s with
  | [] => (inl (ServiceError "no response"), [])
  | r :: s' => (r, s')
  end.

(** ** Frames, answers and texts to run the code on *)

Definition tab_separated : string := "RPG" +:+ Str.tab +:+ "game".

Definition newline_separated : string := "Action" +:+ Str.nl +:+ "Adventure".

Definition thirty_two_words : string :=
  "  a1 a2 a3 a4 a5 a6 a7 a8 a9 a10 b1 b2 b3 b4 b5 b6 b7 b8 b9 b10 c1 c2 c3 c4 c5 c6 c7 c8 c9 c10 d1 d2 ".

Definition games : DataFrame :=
  mkDataFrame 2 [("game_title", ["Chess Master 3000"; "Pong"]); ("year", ["1999"; "1972"])].

Definition no_games : DataFrame := mkDataFrame 0 [("game_title", [])].

Definition games_with_genre : DataFrame :=
  mkDataFrame 1 [("game_title", ["Pong"]); ("genre", ["Arcade"])].

Definition me : GameDataEnricher := mkEnricher "key" 5.

(** Six answers, the second and the sixth of them failures. *)
Definition answers : list (result string) :=
  [inr "Strategy game."; inl (ServiceError "quota"); inr "Both modes";
   inr "Sports"; inr "  Two paddles and a ball. "; inl (ServiceError "timeout")].

Definition world_of (d : DataFrame) (s : list (result string))
    : world (list (result string)) :=
  mkWorld {[ 0 := d ]} s [].

Definition blank : string := " " +:+ Str.tab +:+ Str.nl.

Definition untitled : DataFrame := mkDataFrame 1 [("name", ["Pong"])].

(** ** The script: [main] *)

Definition input_file : string := "Game_Thumbnail.csv".
Definition output_file : string := "Game_Thumbnail_New.csv".

(** [df[names]] for a list of names: the named columns, in the order of the
    list, or the names that are no columns. *)
Definition df_select (names : list string) (d : DataFrame) : list string + DataFrame :=
  let missing := filter (λ n, n ∉ column_names d) names in
  if decide (missing = [])
  then inr (mkDataFrame (df_len d)
              (omap (λ n, (λ vs, (n, vs)) <$> column n d) names))
  else inl missing.

(** [df.head(n)] *)
Definition df_head (n : nat) (d : DataFrame) : DataFrame :=
  mkDataFrame (n `min` df_len d) (map (λ col, (col.1, take n col.2)) (df_columns d)).

(** [df.iloc[i]] for [i] not negative *)
Definition df_iloc (d : DataFrame) (i : nat) : result Series :=
  if decide (i < df_len d) then inr (row_at d i)
  else inl (IndexError "single positional indexer is out-of-bounds").

(** What ends a part of the script early: an exception, of which the script
    only ever uses the text [str(e)], or [sys.exit(code)], which no
    [except Exception] catches. *)
Inductive abort : Type :=
| Raised (text : string)
| SystemExit (code : Z).

(** The script runs on the files and on the world of the methods. *)
Record machine (Svc FS : Type) : Type := mkMachine {
  files : FS;
  mem : world Svc
}.
Arguments mkMachine {Svc FS} _ _.
Arguments files {Svc FS} _.
Arguments mem {Svc FS} _.

Definition Script (Svc FS A : Type) : Type :=
  machine Svc FS → (abort + A) * machine Svc FS.

Definition sret {Svc FS A} (a : A) : Script Svc FS A := λ st, (inr a, st).

Definition sbind {Svc FS A B} (m : Script Svc FS A) (k : A → Script Svc FS B)
    : Script Svc FS B :=
  λ st, match m st with
        | (inr a, st') => k a st'
        | (inl x, st') => (inl x, st')
        end.

(** [sys.exit(code)] *)
Definition exit {Svc FS A} (code : Z) : Script Svc FS A := λ st, (inl (SystemExit code), st).

(** [try: m  except Exception as e: h str(e)] *)
Definition attempt {Svc FS A} (m : Script Svc FS A) (h : string → Script Svc FS A)
    : Script Svc FS A :=
  λ st, match m st with
        | (inl (Raised text), st') => h text st'
        | r => r
        end.

(** A computation of the methods, run by the script. *)
Definition run {Svc FS A} (m : M Svc A) : Script Svc FS A :=
  λ st, match m (mem st) with
        | (inr a, w') => (inr a, mkMachine (files st) w')
        | (inl e, w') => (inl (Raised (exn_str e)), mkMachine (files st) w')
        end.

Definition say {Svc FS} (line : string) : Script Svc FS unit := run (print line).

(** A new frame object. *)
Definition alloc {Svc} (d : DataFrame) : M Svc loc :=
  λ w, let l := fresh (dom (heap w)) in
       (inr l, mkWorld (<[l := d]> (heap w)) (service w) (trace w)).

Declare Scope script_scope.
Delimit Scope script_scope with script.
Notation "x <- m ;; k" := (sbind m (λ x, k))
  (at level 100, m at next level, right associativity) : script_scope.
Notation "m ;;; k" := (sbind m (λ _, k))
  (at level 100, right associativity) : script_scope.

Section Main.

Context {Svc FS : Type}.

Variable generate : Svc → string → result string * Svc.

(** The surroundings of the script: [os.path.exists]; [pd.read_csv], giving
    a frame or the text of the exception it raises; [DataFrame.to_csv] with
    [index=False], likewise, and the files afterwards; the value of
    [GOOGLE_API_KEY] once [load_dotenv()] has run; the client library being
    configured for a key; the text [print] shows for a frame; the text of the
    [KeyError] for names that are no columns. *)
Variable path_exists : FS → string → bool.
Variable read_csv : FS → string → string + DataFrame.
Variable to_csv : FS → string → DataFrame → (string + unit) * FS.
Variable getenv_key : option string.
Variable configure : string → result unit.
Variable show : DataFrame → string.
Variable not_in_index : list string → string.

Local Open Scope script_scope.

(** [GameDataEnricher()]: [__init__] with the client library configured. *)
Definition construct : result GameDataEnricher :=
  match init None getenv_key with
  | inr enricher =>
      match configure (api_key enricher) with
      | inr _ => inr enricher
      | inl e => inl e
      end
  | inl e => inl e
  end.

Definition load (path : string) : Script Svc FS loc :=
  λ st, match read_csv (files st) path with
        | inr d => run (alloc d) st
        | inl text => (inl (Raised text), st)
        end.

Definition save (df : loc) (path : string) : Script Svc FS unit :=
  d <- run (deref df) ;;
  λ st, match to_csv (files st) path d with
        | (inr _, fs') => (inr tt, mkMachine fs' (mem st))
        | (inl text, fs') => (inl (Raised text), mkMachine fs' (mem st))
        end.

Definition select (names : list string) (d : DataFrame) : Script Svc FS DataFrame :=
  λ st, match df_select names d with
        | inr d' => (inr d', st)
        | inl missing => (inl (Raised (not_in_index missing)), st)
        end.

Definition main : Script Svc FS unit :=
  say (Str.times "=" 60) ;;;
  say "Video Game Data Enhancement Script" ;;;
  say (Str.times "=" 60) ;;;
  say EmptyString ;;;
  (λ st, if path_exists (files st) input_file then sret tt st
         else (say ("Error: Input file '" +:+ input_file +:+ "' not found.") ;;;
               say "Please ensure the Game_Thumbnail.csv file is in the same directory." ;;;
               exit 1) st) ;;;
  say ("Loading data from " +:+ input_file +:+ "...") ;;;
  df <- attempt
          (df <- load input_file ;;
           d <- run (deref df) ;;
           say ("Successfully loaded " +:+ Str.of_nat (df_len d) +:+ " games.") ;;;
           say EmptyString ;;;
           sret df)
          (λ e, say ("Error loading CSV file: " +:+ e) ;;; exit 1) ;;
  enricher <- match construct with
              | inr enricher =>
                  say "Google AI Studio API configured successfully." ;;;
                  say EmptyString ;;;
                  sret enricher
              | inl (ValueError m) =>
                  say ("Configuration Error: " +:+ m) ;;; exit 1
              | inl e =>
                  say ("Unexpected error during initialization: " +:+ exn_str e) ;;;
                  exit 1
              end ;;
  enhanced_df <- attempt
                   (enhanced_df <- run (process_dataframe generate enricher df) ;;
                    say (Str.times "=" 60) ;;;
                    say "Processing complete!" ;;;
                    say EmptyString ;;;
                    sret enhanced_df)
                   (λ e, say ("Error during processing: " +:+ e) ;;; exit 1) ;;
  attempt
    (save enhanced_df output_file ;;;
     say ("Enhanced data saved to: " +:+ output_file) ;;;
     say EmptyString ;;;
     say "Sample of enhanced data:" ;;;
     say (Str.times "-" 60) ;;;
     d <- run (deref enhanced_df) ;;
     sample <- select ["game_title"; "genre"; "player_mode"] d ;;
     say (show (df_head 5 sample)) ;;;
     say EmptyString ;;;
     say "First game description sample:" ;;;
     first <- run (lift (df_iloc d 0)) ;;
     title <- run (lift (series_getitem first "game_title")) ;;
     say ("Game: " +:+ title) ;;;
     first <- run (lift (df_iloc d 0)) ;;
     description <- run (lift (series_getitem first "short_description")) ;;
     say ("Description: " +:+ description))
    (λ e, say ("Error saving enhanced data: " +:+ e) ;;; exit 1) ;;;
  say EmptyString ;;;
  say (Str.times "=" 60) ;;;
  say "Script execution completed successfully!" ;;;
  say (Str.times "=" 60).

End Main.

(** ** Stub surroundings: the files as a list of frames by name *)

Definition disk : Type := list (string * DataFrame).

Definition disk_exists (fs : disk) (path : string) : bool :=
  bool_decide (is_Some (assoc path fs)).

Definition disk_read (fs : disk) (path : string) : string + DataFrame :=
  match assoc path fs with
  | Some d => inr d
  | None => inl "No such file or directory"
  end.

Definition disk_write (fs : disk) (path : string) (d : DataFrame)
    : (string + unit) * disk :=
  (inr tt, (path, d) :: fs).

Definition stub_main (fs : disk) (key : option string) (s : list (result string))
    : (abort + unit) * machine (list (result string)) disk :=
  main scripted disk_exists disk_read disk_write key (λ _, inr tt) (λ _, "<frame>")
    (λ _, "not in index") (mkMachine fs (mkWorld ∅ s [])).

(** The time spent in [time.sleep], in seconds. *)
Definition pause_total (tr : list event) : Q :=
  foldr (λ e acc, match e with Sleep d => (d + acc)%Q | _ => acc end) 0%Q tr.

(** * Proofs *)

(** ** Facts about characters and strings *)

Module StrFacts.
Import Str.

Lemma str_app_nil_l (s : string) : EmptyString +:+ s = s.
Proof. reflexivity. Qed.

Lemma str_app_cons c (s t : string) : String c s +:+ t = String c (s +:+ t).
Proof. reflexivity. Qed.

Lemma str_app_nil_r (s : string) : s +:+ EmptyString = s.
Proof. induction s as [|c s IH]; [done | by rewrite str_app_cons, IH]. Qed.

Lemma str_app_assoc (a b c : string) : (a +:+ b) +:+ c = a +:+ (b +:+ c).
Proof. induction a as [|x a IH]; [done | by rewrite !str_app_cons, IH]. Qed.

Lemma is_empty_true (s : string) : is_empty s = true ↔ s = EmptyString.
Proof. destruct s; simpl; split; congruence. Qed.

Lemma isspace_lower_char (c : ascii) : isspace (lower_char c) = isspace c.
Proof. destruct c as [[] [] [] [] [] [] [] []]; vm_compute; reflexivity. Qed.

Lemma lower_app (a b : string) : lower (a +:+ b) = lower a +:+ lower b.
Proof.
  induction a as [|x a IH]; [done |].
  rewrite str_app_cons. simpl. by rewrite str_app_cons, IH.
Qed.

Lemma is_empty_lower (s : string) : is_empty (lower s) = is_empty s.
Proof. by destruct s. Qed.

Lemma lower_lstrip (s : string) : lower (lstrip s) = lstrip (lower s).
Proof.
  induction s as [|c s IH]; simpl; [done |].
  rewrite isspace_lower_char. by destruct (isspace c).
Qed.

Lemma lower_rstrip (s : string) : lower (rstrip s) = rstrip (lower s).
Proof.
  induction s as [|c s IH]; simpl; [done |].
  rewrite isspace_lower_char, <- IH, is_empty_lower.
  by destruct (is_empty (rstrip s) && isspace c).
Qed.

Lemma lower_strip (s : string) : lower (strip s) = strip (lower s).
Proof. unfold strip. by rewrite lower_rstrip, lower_lstrip. Qed.

(** *** [strip] *)

Lemma lstrip_all_space (s : string) : all_space s = true → lstrip s = EmptyString.
Proof.
  induction s as [|c s IH]; simpl; [done |].
  destruct (isspace c); simpl; [exact IH | done].
Qed.

Lemma strip_all_space (s : string) : all_space s = true → strip s = EmptyString.
Proof. intros H. unfold strip. by rewrite lstrip_all_space. Qed.

Lemma lstrip_head (s : string) c r : lstrip s = String c r → isspace c = false.
Proof.
  induction s as [|x s IH]; simpl; [done |].
  destruct (isspace x) eqn:E; [exact IH | congruence].
Qed.

Lemma rstrip_head (s : string) c r :
  rstrip s = String c r → ∃ r', s = String c r'.
Proof.
  destruct s as [|x s]; simpl; [done |].
  destruct (is_empty (rstrip s) && isspace x); [done |].
  intros [= -> _]. eauto.
Qed.

Lemma strip_head (s : string) c r : strip s = String c r → isspace c = false.
Proof.
  unfold strip. intros H. apply rstrip_head in H as [r' H].
  by apply lstrip_head in H.
Qed.

(** A non-empty tail of [rstrip s] holds a character that is no whitespace. *)
Lemma rstrip_tail (s a b : string) :
  rstrip s = a +:+ b → b ≠ EmptyString → all_space b = false.
Proof.
  revert a b. induction s as [|c s IH]; intros a b; simpl.
  - destruct a, b; rewrite ?str_app_cons, ?str_app_nil_l; congruence.
  - destruct (is_empty (rstrip s)) eqn:Ee; destruct (isspace c) eqn:Ec; simpl.
    + destruct a, b; rewrite ?str_app_cons, ?str_app_nil_l; congruence.
    + apply is_empty_true in Ee. rewrite Ee.
      destruct a as [|x a]; rewrite ?str_app_cons, ?str_app_nil_l.
      * intros <- _. simpl. by rewrite Ec.
      * intros [= <- Hab]. destruct a, b; rewrite ?str_app_cons, ?str_app_nil_l in Hab; congruence.
    + destruct a as [|x a]; rewrite ?str_app_cons, ?str_app_nil_l.
      * intros <- _. simpl. rewrite Ec. simpl.
        apply (IH EmptyString); [done |]. by destruct (rstrip s).
      * intros [= <- Hab]. by apply (IH a).
    + destruct a as [|x a]; rewrite ?str_app_cons, ?str_app_nil_l.
      * intros <- _. simpl. by rewrite Ec.
      * intros [= <- Hab]. by apply (IH a).
Qed.

Lemma strip_tail (s a b : string) :
  strip s = a +:+ b → b ≠ EmptyString → all_space b = false.
Proof. apply rstrip_tail. Qed.

(** *** [split] *)

Lemma split_go_space cur c (s : string) :
  isspace c = true →
  split_go cur (String c s) = split_go cur EmptyString ++ split_go EmptyString s.
Proof. intros H. simpl. rewrite H. by destruct (is_empty cur). Qed.

(** Splitting at a whitespace character splits the list of words. *)
Lemma split_go_app_space cur (a : string) c (b : string) :
  isspace c = true →
  split_go cur (a +:+ String c b) = split_go cur a ++ split_go EmptyString b.
Proof.
  intros Hc. revert cur. induction a as [|x a IH]; intros cur.
  - rewrite str_app_nil_l. by apply split_go_space.
  - rewrite str_app_cons. simpl. destruct (isspace x).
    + rewrite IH. by destruct (is_empty cur).
    + apply IH.
Qed.

Lemma str_app_eq_empty (a b : string) : a +:+ b = EmptyString → a = EmptyString ∧ b = EmptyString.
Proof. destruct a; [rewrite str_app_nil_l | rewrite str_app_cons]; by intros. Qed.

Lemma split_go_nil cur (s : string) :
  split_go cur s = [] → cur = EmptyString ∧ all_space s = true.
Proof.
  revert cur. induction s as [|c s IH]; intros cur; simpl.
  - destruct cur; simpl; [done | congruence].
  - destruct (isspace c); simpl.
    + destruct cur; simpl; [| congruence]. intros H. by apply IH in H as [_ ?].
    + intros H. apply IH in H as [H _]. apply str_app_eq_empty in H as [_ ?]. congruence.
Qed.

Lemma no_space_app (a b : string) :
  no_space (a +:+ b) = no_space a && no_space b.
Proof.
  induction a as [|x a IH]; [done |].
  rewrite str_app_cons. simpl. rewrite IH. by destruct (isspace x).
Qed.

(** Every element of [s.split()] is a non-empty run without whitespace. *)
Lemma split_go_words cur (s : string) :
  no_space cur = true → Forall is_word (split_go cur s).
Proof.
  revert cur. induction s as [|c s IH]; intros cur Hcur; simpl.
  - destruct cur; simpl; [constructor |]. by repeat constructor.
  - destruct (isspace c) eqn:Ec.
    + destruct cur; simpl; [by apply IH |].
      constructor; [by split | by apply IH].
    + apply IH. rewrite no_space_app, Hcur. simpl. by rewrite Ec.
Qed.

Lemma split_words (s : string) : Forall is_word (split s).
Proof. by apply split_go_words. Qed.

Lemma split_go_word cur (w rest : string) :
  no_space w = true → split_go cur (w +:+ rest) = split_go (cur +:+ w) rest.
Proof.
  revert cur. induction w as [|x w IH]; intros cur Hw.
  - by rewrite str_app_nil_l, str_app_nil_r.
  - simpl in Hw. apply andb_prop in Hw as [Hx Hw]. apply negb_true_iff in Hx.
    rewrite str_app_cons. simpl. rewrite Hx, IH by done.
    by rewrite str_app_assoc.
Qed.

Lemma split_word (w : string) : is_word w → split w = [w].
Proof.
  intros [Hne Hw]. unfold split.
  rewrite <- (str_app_nil_r w) at 1. rewrite split_go_word by done.
  rewrite str_app_nil_l. simpl. by destruct w.
Qed.

(** Words joined by single spaces split back into the same words. *)
Lemma split_join (ws : list string) :
  Forall is_word ws → split (join " " ws) = ws.
Proof.
  induction 1 as [|w ws Hw Hws IH]; [done |].
  destruct ws as [|w' ws]; [by apply split_word |].
  change (join " " (w :: w' :: ws)) with (w +:+ " " +:+ join " " (w' :: ws)).
  unfold split in *.
  change (" " +:+ join " " (w' :: ws)) with (String " " (join " " (w' :: ws))).
  rewrite split_go_app_space by done. rewrite IH.
  fold (split w). by rewrite split_word.
Qed.

Lemma join_snoc sep (ws : list string) (w x : string) :
  join sep (ws ++ [w]) +:+ x = join sep (ws ++ [w +:+ x]).
Proof.
  induction ws as [|v ws IH]; [done |].
  destruct ws as [|v' ws].
  - simpl. by rewrite !str_app_assoc.
  - change (join sep ((v :: v' :: ws) ++ [w]))
      with (v +:+ sep +:+ join sep ((v' :: ws) ++ [w])).
    change (join sep ((v :: v' :: ws) ++ [w +:+ x]))
      with (v +:+ sep +:+ join sep ((v' :: ws) ++ [w +:+ x])).
    by rewrite !str_app_assoc, IH.
Qed.

Lemma split_go_lstrip (s : string) : split (lstrip s) = split s.
Proof.
  unfold split. induction s as [|c s IH]; simpl; [done |].
  destruct (isspace c) eqn:Ec; [exact IH |]. simpl. by rewrite Ec.
Qed.

Lemma split_go_rstrip cur (s : string) : split_go cur (rstrip s) = split_go cur s.
Proof.
  revert cur. induction s as [|c s IH]; intros cur; simpl; [done |].
  destruct (is_empty (rstrip s)) eqn:Ee; destruct (isspace c) eqn:Ec; simpl;
    rewrite ?Ec, <- ?IH; try done.
  apply is_empty_true in Ee. rewrite Ee. simpl. by destruct (is_empty cur).
Qed.

(** Trimming does not change the words. *)
Lemma split_strip (s : string) : split (strip s) = split s.
Proof. unfold strip, split. rewrite split_go_rstrip. apply split_go_lstrip. Qed.

(** *** [in] *)

Lemma contains_char c (s : string) :
  contains (String c EmptyString) s = true → ∃ a b, s = a +:+ String c b.
Proof.
  induction s as [|x s IH]; simpl; [done |].
  destruct (ascii_dec c x) as [->|Hne]; simpl.
  - intros _. by exists EmptyString, s.
  - intros H. apply IH in H as (a & b & ->). by exists (String x a), b.
Qed.

(** A text without surrounding whitespace that holds a whitespace character
    has at least two words. *)
Lemma split_strip_two (s a : string) c (b : string) :
  strip s = a +:+ String c b → isspace c = true →
  ∃ w w' ws, split (strip s) = w :: w' :: ws.
Proof.
  intros Hs Hc.
  assert (Hb : all_space b = false).
  { assert (H : all_space (String c b) = false).
    { by apply (strip_tail s a). }
    simpl in H. by rewrite Hc in H. }
  assert (Ha : ∃ x a', a = String x a' ∧ isspace x = false).
  { destruct a as [|x a'].
    - rewrite str_app_nil_l in Hs. apply strip_head in Hs. congruence.
    - rewrite str_app_cons in Hs. apply strip_head in Hs. eauto. }
  destruct Ha as (x & a' & -> & Hx).
  rewrite Hs. unfold split. rewrite split_go_app_space by done.
  destruct (split_go EmptyString (String x a')) as [|w l1] eqn:E1.
  { apply split_go_nil in E1 as [_ E1]. simpl in E1. by rewrite Hx in E1. }
  destruct (split_go EmptyString b) as [|w' l2] eqn:E2.
  { apply split_go_nil in E2 as [_ E2]. congruence. }
  destruct l1; simpl; eauto.
Qed.

Lemma no_space_false (s : string) :
  no_space s = false → ∃ a c b, s = a +:+ String c b ∧ isspace c = true.
Proof.
  induction s as [|x s IH]; simpl; [done |].
  destruct (isspace x) eqn:Ex; simpl.
  - intros _. by exists EmptyString, x, s.
  - intros H. apply IH in H as (a & c & b & -> & Hc).
    by exists (String x a), c, b.
Qed.

(** A text of one word is, once trimmed, that word. *)
Lemma split_one (s w : string) : split s = [w] → strip s = w.
Proof.
  intros H. rewrite <- split_strip in H.
  destruct (no_space (strip s)) eqn:E.
  - destruct (strip s) as [|c r] eqn:Es; [done |].
    rewrite split_word in H by done. congruence.
  - apply no_space_false in E as (a & c & b & E & Hc).
    destruct (split_strip_two s a c b E Hc) as (? & ? & ? & E'). congruence.
Qed.

Lemma startswith_rstrip (n s : string) :
  no_space n = true → startswith n (rstrip s) = startswith n s.
Proof.
  revert n. induction s as [|c s IH]; intros n Hn; simpl; [done |].
  destruct n as [|a n]; [by destruct (is_empty (rstrip s) && isspace c) |].
  simpl in Hn. apply andb_prop in Hn as [Ha Hn]. apply negb_true_iff in Ha.
  destruct (is_empty (rstrip s) && isspace c) eqn:E; simpl.
  - apply andb_prop in E as [_ Ec].
    destruct (ascii_dec a c) as [->|]; [congruence | done].
  - destruct (ascii_dec a c); [by apply IH | done].
Qed.

Lemma startswith_space (n : string) c (s : string) :
  is_word n → isspace c = true → startswith n (String c s) = false.
Proof.
  intros [Hne Hn] Hc. destruct n as [|a n]; [done |]. simpl in *.
  destruct (ascii_dec a c) as [->|]; [| done]. by rewrite Hc in Hn.
Qed.

Lemma contains_empty (n : string) : is_word n → contains n EmptyString = false.
Proof. intros [Hne _]. by destruct n. Qed.

Lemma contains_rstrip (n s : string) :
  is_word n → contains n (rstrip s) = contains n s.
Proof.
  intros Hn. induction s as [|c s IH]; simpl; [done |].
  destruct (is_empty (rstrip s) && isspace c) eqn:E.
  - apply andb_prop in E as [Ee Ec]. apply is_empty_true in Ee.
    rewrite <- IH, Ee, contains_empty, startswith_space by done.
    by destruct n.
  - simpl. rewrite IH. f_equal.
    change (String c (rstrip s)) with (String c EmptyString +:+ rstrip s).
    pose proof (startswith_rstrip n (String c s) (proj2 Hn)) as H.
    simpl in H. by rewrite E in H.
Qed.

Lemma contains_lstrip (n s : string) :
  is_word n → contains n (lstrip s) = contains n s.
Proof.
  intros Hn. induction s as [|c s IH]; simpl; [done |].
  destruct (isspace c) eqn:Ec; [| done].
  by rewrite IH, startswith_space.
Qed.

(** Trimming neither adds nor removes an occurrence of a word. *)
Lemma contains_strip (n s : string) :
  is_word n → contains n (strip s) = contains n s.
Proof. intros Hn. unfold strip. by rewrite contains_rstrip, contains_lstrip. Qed.

End StrFacts.

(** ** The response normalisers *)

Import Str StrFacts.

Lemma single_word : is_word "single". Proof. by split. Qed.
Lemma multi_word : is_word "multi". Proof. by split. Qed.
Lemma both_word : is_word "both". Proof. by split. Qed.

Lemma mentions_raw (needle raw : string) :
  is_word needle → mentions needle raw = contains needle (lower raw).
Proof. intros H. unfold mentions. by rewrite lower_strip, contains_strip. Qed.

Lemma valid_mode_mentions (raw : string) :
  strip raw ∈ valid_modes →
  mentions "single" raw = true
  ∨ (mentions "multi" raw = true ∧ mentions "both" raw = false)
  ∨ mentions "both" raw = true.
Proof.
  unfold valid_modes, mentions. rewrite !elem_of_cons, elem_of_nil.
  intros [-> | [-> | [-> | []]]]; vm_compute; auto.
Qed.

(** C1: [normalize_player_mode] returns one of the three labels on every
    input, by these rules in this order: "single" in the lower-cased text
    gives Singleplayer; else "multi" without "both" gives Multiplayer; else
    "both" gives Both; else the trimmed text itself when it is one of the
    labels, and Both otherwise.  A text with "single" and "multi" in it, in
    any case, gives Singleplayer. *)
Theorem normalize_player_mode_precedence (raw : string) :
  normalize_player_mode raw ∈ valid_modes
  ∧ (mentions "single" raw = true → normalize_player_mode raw = "Singleplayer")
  ∧ (mentions "single" raw = false → mentions "multi" raw = true →
     mentions "both" raw = false → normalize_player_mode raw = "Multiplayer")
  ∧ (mentions "single" raw = false → mentions "both" raw = true →
     normalize_player_mode raw = "Both")
  ∧ (mentions "single" raw = false → mentions "multi" raw = false →
     mentions "both" raw = false →
     normalize_player_mode raw
     = if bool_decide (strip raw ∈ valid_modes) then strip raw else "Both")
  ∧ (contains "single" (lower raw) = true → contains "multi" (lower raw) = true →
     normalize_player_mode raw = "Singleplayer").
Proof.
  rewrite <- !mentions_raw by (apply single_word || apply multi_word).
  unfold normalize_player_mode, mentions.
  destruct (contains "single" _) eqn:E1, (contains "multi" _) eqn:E2,
    (contains "both" _) eqn:E3; simpl;
    repeat split; try congruence; try (unfold valid_modes; set_solver).
  all: case_bool_decide; [done | unfold valid_modes; set_solver].
Qed.

Lemma normalize_player_mode_precedence_witness :
  normalize_player_mode "This game supports both single-player campaign and online multiplayer"
  = "Singleplayer"
  ∧ normalize_player_mode "SINGLE" = "Singleplayer"
  ∧ normalize_player_mode " Online Multi only" = "Multiplayer"
  ∧ normalize_player_mode "multi, or BOTH" = "Both"
  ∧ normalize_player_mode "co-op" = "Both".
Proof.
  split; [| split; [| split; [| split]]].
  - destruct (normalize_player_mode_precedence
      "This game supports both single-player campaign and online multiplayer")
      as (_ & _ & _ & _ & _ & H).
    apply H; reflexivity.
  - destruct (normalize_player_mode_precedence "SINGLE") as (_ & H & _).
    apply H; reflexivity.
  - destruct (normalize_player_mode_precedence " Online Multi only") as (_ & _ & H & _).
    apply H; reflexivity.
  - destruct (normalize_player_mode_precedence "multi, or BOTH") as (_ & _ & _ & H & _).
    apply H; reflexivity.
  - destruct (normalize_player_mode_precedence "co-op") as (_ & _ & _ & _ & H & _).
    rewrite H; reflexivity.
Defined.

(** C10: the [if mode in valid_modes] step changes nothing: the function
    without it returns the same value on every input. *)
Theorem normalize_player_mode_exact_match_dead (raw : string) :
  normalize_player_mode_no_exact raw = normalize_player_mode raw.
Proof.
  unfold normalize_player_mode_no_exact, normalize_player_mode.
  case_bool_decide as Hin; [| done].
  apply valid_mode_mentions in Hin. unfold mentions in Hin.
  destruct Hin as [H | [[H1 H2] | H]].
  - by rewrite H.
  - rewrite H1, H2. by destruct (contains "single" (lower (strip raw))).
  - rewrite H.
    by destruct (contains "single" (lower (strip raw))),
         (contains "multi" (lower (strip raw))).
Qed.

(** *** Genre *)

Lemma genre_of_text_space (raw : string) :
  contains " " (strip raw) = true →
  ∃ w w' ws, split (strip raw) = w :: w' :: ws ∧ genre_of_text raw = inr w.
Proof.
  intros H. unfold genre_of_text. rewrite H.
  apply contains_char in H as (a & b & H).
  destruct (split_strip_two raw a " " b H eq_refl) as (w & w' & ws & E).
  exists w, w', ws. by rewrite E.
Qed.

(** The [try] body of [classify_genre] raises nothing of its own. *)
Lemma genre_of_text_ok (raw : string) : genre_of_text raw = inr (normalize_genre raw).
Proof.
  unfold normalize_genre. destruct (contains " " (strip raw)) eqn:E.
  - apply genre_of_text_space in E as (w & _ & _ & _ & ->). done.
  - unfold genre_of_text. by rewrite E.
Qed.

(** C2: the claim asks for the first word of every response of more than one
    whitespace-separated word.  The code misses the responses whose words
    are separated by whitespace other than the space character: the guard
    at line 48 looks for U+0020 only, while [split()] at line 49 cuts at
    any whitespace.  A response of two words with a TAB or a newline
    between them is returned whole, as a genre of two words. *)
Lemma normalize_genre_tab_separated :
  split (strip tab_separated) = ["RPG"; "game"]
  ∧ normalize_genre tab_separated = tab_separated
  ∧ normalize_genre tab_separated ≠ "RPG"
  ∧ split (strip newline_separated) = ["Action"; "Adventure"]
  ∧ normalize_genre newline_separated = newline_separated
  ∧ normalize_genre newline_separated ≠ "Action".
Proof. vm_compute. by repeat split. Qed.

(** Lines 46-51 as they run: with a space character (U+0020) in the trimmed
    text the result is the first of its words (there are then at least
    two); without one the result is the trimmed text itself; a text of one
    word is returned trimmed. *)
Theorem normalize_genre_first_word (raw : string) :
  (contains " " (strip raw) = true →
   ∃ w w' ws, split raw = w :: w' :: ws ∧ normalize_genre raw = w)
  ∧ (contains " " (strip raw) = false → normalize_genre raw = strip raw)
  ∧ (∀ w, split raw = [w] → normalize_genre raw = strip raw ∧ strip raw = w).
Proof.
  assert (H2 : contains " " (strip raw) = false → normalize_genre raw = strip raw).
  { intros E. unfold normalize_genre, genre_of_text. by rewrite E. }
  split; [| split; [done |]].
  - intros E. apply genre_of_text_space in E as (w & w' & ws & E & Hg).
    exists w, w', ws. rewrite <- split_strip. split; [done |].
    unfold normalize_genre. by rewrite Hg.
  - intros w Hw. destruct (contains " " (strip raw)) eqn:E.
    + apply genre_of_text_space in E as (? & ? & ? & E & _).
      rewrite split_strip in E. congruence.
    + split; [by apply H2 |]. by apply split_one.
Qed.

Lemma normalize_genre_first_word_witness :
  normalize_genre "Strategy game." = "Strategy"
  ∧ normalize_genre tab_separated = tab_separated
  ∧ normalize_genre "  Sandbox " = "Sandbox".
Proof.
  split; [| split].
  - destruct (normalize_genre_first_word "Strategy game.") as (H & _).
    destruct (H eq_refl) as (w & w' & ws & E & ->).
    vm_compute in E. congruence.
  - destruct (normalize_genre_first_word tab_separated) as (_ & H & _).
    exact (H eq_refl).
  - destruct (normalize_genre_first_word "  Sandbox ") as (_ & _ & H).
    destruct (H "Sandbox" eq_refl) as [-> ->]. reflexivity.
Defined.


(** *** Description *)

Lemma is_word_dot (w : string) : is_word w → is_word (w +:+ ".").
Proof.
  intros [Hne Hw]. split.
  - destruct w; [done | by rewrite str_app_cons].
  - by rewrite no_space_app, Hw.
Qed.

(** C3: [normalize_description] trims and splits into words; with more than
    30 words the result is the first 29 words joined by single spaces with a
    period appended, which reads as 29 words, the last one ending in the
    period; with at most 30 words it is the trimmed text. *)
Theorem normalize_description_truncates (raw : string) :
  (30 < length (split raw) →
   normalize_description raw = join " " (take 29 (split raw)) +:+ "."
   ∧ ∃ w, split raw !! 28 = Some w
          ∧ split (normalize_description raw) = take 28 (split raw) ++ [w +:+ "."]
          ∧ length (split (normalize_description raw)) = 29)
  ∧ (length (split raw) ≤ 30 → normalize_description raw = strip raw).
Proof.
  unfold normalize_description. rewrite split_strip.
  split; intros Hlen; (case_bool_decide; [| try done; lia]); [| lia].
  split; [done |].
  destruct (lookup_lt_is_Some_2 (split raw) 28) as [w Hw]; [lia |].
  exists w. split; [done |].
  rewrite (take_S_r _ _ _ Hw), join_snoc.
  assert (Hws : Forall is_word (take 28 (split raw) ++ [w +:+ "."])).
  { apply Forall_app. split; [apply Forall_take, split_words |].
    constructor; [| constructor]. apply is_word_dot.
    eapply (proj1 (Forall_lookup _ _) (split_words raw)); eauto. }
  rewrite split_join by done. split; [done |].
  rewrite length_app, length_take. cbn [length]. lia.
Qed.

Lemma normalize_description_truncates_witness :
  normalize_description thirty_two_words
  = "a1 a2 a3 a4 a5 a6 a7 a8 a9 a10 b1 b2 b3 b4 b5 b6 b7 b8 b9 b10 c1 c2 c3 c4 c5 c6 c7 c8 c9."
  ∧ normalize_description " Play chess. " = "Play chess.".
Proof.
  split.
  - destruct (normalize_description_truncates thirty_two_words) as (H & _).
    assert (Hlen : 30 < length (split thirty_two_words)) by (vm_compute; lia).
    destruct (H Hlen) as (-> & _). reflexivity.
  - destruct (normalize_description_truncates " Play chess. ") as (_ & H).
    assert (Hlen : length (split " Play chess. ") ≤ 30) by (vm_compute; lia).
    rewrite (H Hlen). reflexivity.
Defined.

(** ** Frames and runs *)

Lemma lookup_fmap_Some_2 {A B} (f : A → B) (l : list A) i x :
  l !! i = Some x → (f <$> l) !! i = Some (f x).
Proof. intros H. by rewrite list_lookup_fmap, H. Qed.

(** *** Column assignment *)

Lemma assoc_set_column_eq name vs cols :
  assoc name (set_column name vs cols) = Some vs.
Proof.
  induction cols as [|[k old] cols IH]; simpl.
  - by rewrite decide_True.
  - destruct (decide (k = name)) as [->|Hne]; simpl.
    + by rewrite decide_True.
    + by rewrite decide_False.
Qed.

Lemma assoc_set_column_ne name name' vs cols :
  name ≠ name' → assoc name' (set_column name vs cols) = assoc name' cols.
Proof.
  intros Hne. induction cols as [|[k old] cols IH]; simpl.
  - by rewrite decide_False.
  - destruct (decide (k = name)) as [->|Hk]; simpl.
    + by rewrite !decide_False.
    + by rewrite IH.
Qed.

Lemma set_column_fresh name vs cols :
  name ∉ cols.*1 → set_column name vs cols = cols ++ [(name, vs)].
Proof.
  induction cols as [|[k old] cols IH]; simpl; [done |].
  rewrite not_elem_of_cons. intros [Hne Hnin].
  rewrite decide_False by done. by rewrite IH.
Qed.

Lemma enriched_genre d os :
  column "genre" (enriched d os) = Some ((λ o : outcomes, genre_field o.1.1) <$> os).
Proof.
  unfold column, enriched. simpl.
  rewrite !assoc_set_column_ne by done. apply assoc_set_column_eq.
Qed.

Lemma enriched_short_description d os :
  column "short_description" (enriched d os)
  = Some ((λ o : outcomes, description_field o.1.2) <$> os).
Proof.
  unfold column, enriched. simpl.
  rewrite !assoc_set_column_ne by done. apply assoc_set_column_eq.
Qed.

Lemma enriched_player_mode d os :
  column "player_mode" (enriched d os)
  = Some ((λ o : outcomes, player_mode_field o.2) <$> os).
Proof. unfold column, enriched. simpl. apply assoc_set_column_eq. Qed.

Lemma enriched_other d os name :
  name ∉ new_columns → column name (enriched d os) = column name d.
Proof.
  unfold new_columns. rewrite !not_elem_of_cons. intros (H1 & H2 & H3 & _).
  unfold column, enriched. simpl. by rewrite !assoc_set_column_ne.
Qed.

Lemma enriched_fresh d os :
  "genre" ∉ column_names d → "short_description" ∉ column_names d →
  "player_mode" ∉ column_names d →
  df_columns (enriched d os)
  = df_columns d
    ++ [("genre", (λ o : outcomes, genre_field o.1.1) <$> os);
        ("short_description", (λ o : outcomes, description_field o.1.2) <$> os);
        ("player_mode", (λ o : outcomes, player_mode_field o.2) <$> os)].
Proof.
  unfold column_names. intros H1 H2 H3. unfold enriched. simpl.
  rewrite (set_column_fresh "genre") by done.
  rewrite (set_column_fresh "short_description").
  2: { rewrite fmap_app, not_elem_of_app. split; [done |].
       apply not_elem_of_cons. split; [done | apply not_elem_of_nil]. }
  rewrite (set_column_fresh "player_mode").
  2: { rewrite !fmap_app, !not_elem_of_app. repeat split; try done.
       all: apply not_elem_of_cons; split; [done | apply not_elem_of_nil]. }
  by rewrite <- !app_assoc.
Qed.

Section Runs.

Context {Svc : Type}.
Variable generate : Svc → string → result string * Svc.

Lemma rows_outcomes_length s titles :
  length (rows_outcomes generate s titles).1 = length titles.
Proof.
  revert s. induction titles as [|t ts IH]; intros s; simpl; [done |].
  destruct (row_outcomes generate s t) as [o s1]. specialize (IH s1).
  destruct (rows_outcomes generate s1 ts) as [os s']. simpl in *. by rewrite IH.
Qed.

Lemma classify_genre_run self t (w : world Svc) o s' :
  generate (service w) (genre_prompt t) = (o, s') →
  classify_genre generate self t w
  = (inr (genre_field o),
     mkWorld (heap w) s'
       (trace w ++ Generate (genre_prompt t) o
                   :: error_line "Error classifying genre for " t o)).
Proof.
  intros H. unfold classify_genre, try_except, bind, generate_content, lift.
  rewrite H. destruct o as [e | text]; simpl.
  - unfold print, emit, ret. simpl. by rewrite <- app_assoc.
  - by rewrite genre_of_text_ok.
Qed.

Lemma generate_description_run self t (w : world Svc) o s' :
  generate (service w) (description_prompt t) = (o, s') →
  generate_description generate self t w
  = (inr (description_field o),
     mkWorld (heap w) s'
       (trace w ++ Generate (description_prompt t) o
                   :: error_line "Error generating description for " t o)).
Proof.
  intros H. unfold generate_description, try_except, bind, generate_content.
  rewrite H. destruct o as [e | text]; simpl; [| done].
  unfold print, emit, ret. simpl. by rewrite <- app_assoc.
Qed.

Lemma determine_player_mode_run self t (w : world Svc) o s' :
  generate (service w) (player_mode_prompt t) = (o, s') →
  determine_player_mode generate self t w
  = (inr (player_mode_field o),
     mkWorld (heap w) s'
       (trace w ++ Generate (player_mode_prompt t) o
                   :: error_line "Error determining player mode for " t o)).
Proof.
  intros H. unfold determine_player_mode, try_except, bind, generate_content.
  rewrite H. destruct o as [e | text]; simpl; [| done].
  unfold print, emit, ret. simpl. by rewrite <- app_assoc.
Qed.

Lemma loop_body_run self total idx row t gs ds ms (w : world Svc) o s' :
  series_getitem row "game_title" = inr t →
  row_outcomes generate (service w) t = (o, s') →
  loop_body generate self total idx row (gs, ds, ms) w
  = (inr (gs ++ [genre_field o.1.1], ds ++ [description_field o.1.2],
          ms ++ [player_mode_field o.2]),
     mkWorld (heap w) s' (trace w ++ row_events self total idx t o)).
Proof.
  intros Hrow Ho. unfold row_outcomes in Ho.
  destruct (generate (service w) (genre_prompt t)) as [og s1] eqn:Eg.
  destruct (generate s1 (description_prompt t)) as [od s2] eqn:Ed.
  destruct (generate s2 (player_mode_prompt t)) as [om s3] eqn:Em.
  injection Ho as <- <-.
  unfold loop_body, bind at 1, lift. rewrite Hrow.
  unfold bind at 1, print at 1, emit. 
  unfold bind at 1. erewrite classify_genre_run by (simpl; exact Eg).
  unfold bind at 1, print at 1, emit.
  unfold bind at 1, sleep at 1, emit.
  unfold bind at 1. erewrite generate_description_run by (simpl; exact Ed).
  unfold bind at 1, print at 1, emit.
  unfold bind at 1, sleep at 1, emit.
  unfold bind at 1. erewrite determine_player_mode_run by (simpl; exact Em).
  unfold bind, print, sleep, emit, ret. simpl.
  do 2 f_equal. unfold row_events. simpl.
  repeat (rewrite <- app_assoc; simpl). done.
Qed.

Lemma loop_run self total rows titles :
  Forall2 has_title rows titles →
  ∀ gs ds ms (w : world Svc) os s',
  rows_outcomes generate (service w) titles = (os, s') →
  loop generate self total rows (gs, ds, ms) w
  = (inr (gs ++ ((λ o : outcomes, genre_field o.1.1) <$> os),
          ds ++ ((λ o : outcomes, description_field o.1.2) <$> os),
          ms ++ ((λ o : outcomes, player_mode_field o.2) <$> os)),
     mkWorld (heap w) s' (trace w ++ loop_events self total rows.*1 titles os)).
Proof.
  induction 1 as [|[idx row] t rows titles Hrow _ IH]; intros gs ds ms w os s' Hos.
  - injection Hos as <- <-. simpl. unfold ret. rewrite !app_nil_r. by destruct w.
  - simpl in Hos.
    destruct (row_outcomes generate (service w) t) as [o s1] eqn:Eo.
    destruct (rows_outcomes generate s1 titles) as [os' s''] eqn:Eos.
    injection Hos as <- <-.
    cbn [loop]. unfold bind. erewrite loop_body_run by eauto.
    erewrite IH by (simpl; exact Eos).
    rewrite !fmap_cons. cbn [loop_events fst heap trace].
    by rewrite <- !app_assoc.
Qed.

Lemma assoc_row_at (key : string) cols i :
  assoc key (map (λ col : string * list string,
                    (col.1, default EmptyString (col.2 !! i))) cols)
  = (λ vs : list string, default EmptyString (vs !! i)) <$> assoc key cols.
Proof.
  induction cols as [|[k vs] cols IH]; simpl; [done |].
  by destruct (decide (k = key)).
Qed.

Lemma assoc_elem_of {A} (key : string) (l : list (string * A)) v :
  assoc key l = Some v → (key, v) ∈ l.
Proof.
  induction l as [|[k x] l IH]; simpl; [done |].
  destruct (decide (k = key)) as [->|]; [intros [= ->]; left | right; auto].
Qed.

(** The rows of a frame carry the cells of its [game_title] column. *)
Lemma iterrows_titles d titles :
  df_wf d → column "game_title" d = Some titles →
  Forall2 has_title (iterrows d) titles.
Proof.
  intros [_ Hlen] Hcol.
  assert (Ht : length titles = df_len d).
  { apply assoc_elem_of in Hcol.
    by apply (proj1 (Forall_forall _ _) Hlen _ Hcol). }
  apply Forall2_same_length_lookup_2.
  { unfold iterrows. by rewrite length_map, length_seq. }
  intros i [idx row] t Hi Hti. unfold iterrows in Hi.
  rewrite list_lookup_fmap in Hi.
  destruct (seq 0 (df_len d) !! i) as [k|] eqn:Ek; [| done].
  apply lookup_seq in Ek as [-> _]. injection Hi as <- <-.
  unfold has_title, series_getitem, row_at. simpl.
  unfold column in Hcol. rewrite assoc_row_at, Hcol. simpl. by rewrite Hti.
Qed.

Lemma iterrows_idx d : (iterrows d).*1 = seq 0 (df_len d).
Proof.
  unfold iterrows. rewrite <- list_fmap_compose.
  apply list_fmap_id.
Qed.

Lemma iterrows_length d : length (iterrows d) = df_len d.
Proof. unfold iterrows. by rewrite length_map, length_seq. Qed.

(** The run of [process_dataframe] on a frame whose rows have titles. *)
Lemma process_dataframe_run self df (w : world Svc) d titles os s' :
  heap w !! df = Some d →
  Forall2 has_title (iterrows d) titles →
  rows_outcomes generate (service w) titles = (os, s') →
  process_dataframe generate self df w
  = (inr df,
     mkWorld (<[df := enriched d os]> (heap w)) s'
       (trace w
        ++ [Print ("Processing " +:+ Str.of_nat (df_len d) +:+ " games...");
            Print (Str.times "-" 50)]
        ++ loop_events self (df_len d) (seq 0 (df_len d)) titles os)).
Proof.
  intros Hd Hrows Hos.
  assert (Hlen : length os = df_len d).
  { pose proof (rows_outcomes_length (service w) titles) as H.
    rewrite Hos in H. simpl in H.
    apply Forall2_length in Hrows. rewrite iterrows_length in Hrows. lia. }
  unfold process_dataframe, bind at 1, deref. rewrite Hd.
  unfold bind at 1, print at 1, emit.
  unfold bind at 1, print at 1, emit.
  unfold bind at 1. erewrite loop_run by (simpl; eauto).
  simpl. unfold bind, setitem, ret. simpl. rewrite Hd. 
  unfold df_setitem. simpl.
  rewrite decide_True by (by rewrite length_fmap).
  simpl. rewrite lookup_insert_eq. simpl.
  rewrite decide_True by (by rewrite length_fmap).
  simpl. rewrite lookup_insert_eq. simpl.
  rewrite decide_True by (by rewrite length_fmap).
  rewrite !insert_insert_eq, iterrows_idx. unfold enriched.
  by rewrite <- !app_assoc.
Qed.

(** *** Traces *)

Lemma calls_error_line what t o : calls (error_line what t o) = [].
Proof. by destruct o. Qed.

Lemma schedule_error_line what t o : schedule (error_line what t o) = [].
Proof. by destruct o. Qed.

Lemma calls_row_events self total idx t o :
  calls (row_events self total idx t o) = row_calls t o.
Proof.
  unfold row_events, calls. rewrite !omap_app. fold calls.
  by rewrite !calls_error_line.
Qed.

Lemma schedule_row_events self total idx t o :
  schedule (row_events self total idx t o) = row_schedule (api_delay self) t.
Proof.
  unfold row_events, schedule. rewrite !omap_app. fold schedule.
  by rewrite !schedule_error_line.
Qed.

Lemma calls_loop_events self total idxs titles os :
  length idxs = length titles → length os = length titles →
  calls (loop_events self total idxs titles os) = concat (zip_with row_calls titles os).
Proof.
  revert idxs os. induction titles as [|t ts IH]; intros [|i idxs] [|o os]; try done.
  intros [= Hi] [= Ho]. cbn [loop_events zip_with concat].
  unfold calls at 1. rewrite omap_app. fold calls.
  by rewrite calls_row_events, IH.
Qed.

Lemma schedule_loop_events self total idxs titles os :
  length idxs = length titles → length os = length titles →
  schedule (loop_events self total idxs titles os)
  = concat (row_schedule (api_delay self) <$> titles).
Proof.
  revert idxs os. induction titles as [|t ts IH]; intros [|i idxs] [|o os]; try done.
  intros [= Hi] [= Ho]. rewrite fmap_cons. cbn [loop_events concat].
  unfold schedule at 1. rewrite omap_app. fold schedule.
  by rewrite schedule_row_events, IH.
Qed.

(** *** The claims about the row loop *)


(** C5, amended: on a frame with a [game_title] column and no column named
    genre, short_description or player_mode, the frame afterwards has the
    same number of rows and its old columns, unchanged and in their order,
    followed by exactly genre, short_description and player_mode, each with
    one value per row. *)
Theorem process_dataframe_appends_columns self df (w : world Svc) d titles :
  heap w !! df = Some d → df_wf d → column "game_title" d = Some titles →
  "genre" ∉ column_names d → "short_description" ∉ column_names d →
  "player_mode" ∉ column_names d →
  ∃ w' genres descriptions player_modes,
    process_dataframe generate self df w = (inr df, w')
    ∧ heap w' !! df
      = Some (mkDataFrame (df_len d)
                (df_columns d ++ [("genre", genres);
                                  ("short_description", descriptions);
                                  ("player_mode", player_modes)]))
    ∧ length genres = df_len d
    ∧ length descriptions = df_len d
    ∧ length player_modes = df_len d.
Proof.
  intros Hd Hwf Hcol H1 H2 H3.
  pose proof (iterrows_titles d titles Hwf Hcol) as Hrows.
  destruct (rows_outcomes generate (service w) titles) as [os s'] eqn:Hos.
  assert (Hlen : length os = df_len d).
  { pose proof (rows_outcomes_length (service w) titles) as H. rewrite Hos in H.
    apply Forall2_length in Hrows. rewrite iterrows_length in Hrows.
    simpl in H. lia. }
  eexists _, ((λ o : outcomes, genre_field o.1.1) <$> os),
    ((λ o : outcomes, description_field o.1.2) <$> os),
    ((λ o : outcomes, player_mode_field o.2) <$> os).
  split; [by eapply process_dataframe_run |].
  simpl. rewrite lookup_insert_eq, !length_fmap.
  split; [| done].
  rewrite <- (enriched_fresh d os) by done. done.
Qed.

(** C6: the calls and pauses of a run are, row after row in row order, the
    genre call, a pause, the description call, a pause, the player-mode
    call, a pause; each call is over, with its outcome, before the next
    event; the last event of the last row is a pause. *)
Theorem calls_and_delays_in_row_order self df (w : world Svc) d titles :
  heap w !! df = Some d → df_wf d → column "game_title" d = Some titles →
  ∃ w' new,
    process_dataframe generate self df w = (inr df, w')
    ∧ trace w' = trace w ++ new
    ∧ schedule new = concat (row_schedule (api_delay self) <$> titles)
    ∧ (titles ≠ [] → last (schedule new) = Some (Delay (api_delay self))).
Proof.
  intros Hd Hwf Hcol.
  pose proof (iterrows_titles d titles Hwf Hcol) as Hrows.
  destruct (rows_outcomes generate (service w) titles) as [os s'] eqn:Hos.
  assert (Hlen : length os = length titles).
  { pose proof (rows_outcomes_length (service w) titles) as H. by rewrite Hos in H. }
  assert (Hn : length titles = df_len d).
  { apply Forall2_length in Hrows. by rewrite iterrows_length in Hrows. }
  eexists _, _. split; [by eapply process_dataframe_run |].
  split; [done |].
  assert (Hs : schedule
                 ([Print ("Processing " +:+ of_nat (df_len d) +:+ " games...");
                   Print (times "-" 50)]
                  ++ loop_events self (df_len d) (seq 0 (df_len d)) titles os)
               = concat (row_schedule (api_delay self) <$> titles)).
  { unfold schedule. rewrite omap_app. fold schedule. simpl.
    apply schedule_loop_events; [by rewrite length_seq | done]. }
  split; [exact Hs |].
  intros Hne. rewrite Hs.
  destruct (exists_last Hne) as (ts & t & ->).
  rewrite fmap_app, concat_app, last_app. done.
Qed.

(** C7, amended: [process_dataframe] changes the frame it is given, in
    place, and returns the reference it was given: afterwards that object
    has the three columns set; its row count and its columns of other names
    are as before, and so is every other object. *)
Theorem process_dataframe_in_place self df (w : world Svc) d titles :
  heap w !! df = Some d → df_wf d → column "game_title" d = Some titles →
  ∃ w' d',
    process_dataframe generate self df w = (inr df, w')
    ∧ heap w' !! df = Some d'
    ∧ is_Some (column "genre" d')
    ∧ is_Some (column "short_description" d')
    ∧ is_Some (column "player_mode" d')
    ∧ df_len d' = df_len d
    ∧ (∀ name, name ∉ new_columns → column name d' = column name d)
    ∧ (∀ l, l ≠ df → heap w' !! l = heap w !! l).
Proof.
  intros Hd Hwf Hcol.
  pose proof (iterrows_titles d titles Hwf Hcol) as Hrows.
  destruct (rows_outcomes generate (service w) titles) as [os s'] eqn:Hos.
  eexists _, (enriched d os). split; [by eapply process_dataframe_run |].
  simpl. split; [apply lookup_insert_eq |].
  rewrite enriched_genre, enriched_short_description, enriched_player_mode.
  repeat split; eauto.
  - intros name. apply enriched_other.
  - intros l Hl. by rewrite lookup_insert_ne.
Qed.

(** C8: on a frame without rows the run makes no model call and no pause,
    leaves the service as it was, and the frame still has no rows. *)
Theorem process_dataframe_empty self df (w : world Svc) d :
  heap w !! df = Some d → df_len d = 0 →
  ∃ w' d' new,
    process_dataframe generate self df w = (inr df, w')
    ∧ heap w' !! df = Some d'
    ∧ df_len d' = 0
    ∧ trace w' = trace w ++ new
    ∧ calls new = []
    ∧ schedule new = []
    ∧ service w' = service w.
Proof.
  intros Hd Hn.
  assert (Hrows : Forall2 has_title (iterrows d) []).
  { unfold iterrows. rewrite Hn. constructor. }
  eexists _, (enriched d []), _.
  split; [by eapply (process_dataframe_run self df w d [] [] (service w)) |].
  simpl. rewrite lookup_insert_eq, Hn. by repeat split.
Qed.

(** C9: a response of whitespace only, or of nothing, that comes back
    without an exception gives the empty string as genre and as description,
    not the fallback. *)
Theorem blank_response_gives_empty_field self t (w : world Svc) raw s' :
  all_space raw = true →
  (generate (service w) (genre_prompt t) = (inr raw, s') →
   (classify_genre generate self t w).1 = inr EmptyString)
  ∧ (generate (service w) (description_prompt t) = (inr raw, s') →
     (generate_description generate self t w).1 = inr EmptyString)
  ∧ normalize_genre raw = EmptyString
  ∧ normalize_description raw = EmptyString.
Proof.
  intros Hraw.
  assert (Hg : normalize_genre raw = EmptyString).
  { unfold normalize_genre, genre_of_text. by rewrite strip_all_space. }
  assert (Hd : normalize_description raw = EmptyString).
  { unfold normalize_description. by rewrite strip_all_space. }
  repeat split; try done.
  - intros H. erewrite classify_genre_run by exact H. simpl. by rewrite Hg.
  - intros H. erewrite generate_description_run by exact H. simpl. by rewrite Hd.
Qed.

End Runs.

(** ** The claims on concrete runs *)

(** With every call failing, a row gets the three fallbacks. *)
Example all_calls_fail :
  let run := process_dataframe scripted me 0 (world_of games_with_genre []) in
  run.1 = inr 0
  ∧ heap run.2 !! 0
    = Some (mkDataFrame 1 [("game_title", ["Pong"]); ("genre", ["Unknown"]);
                           ("short_description", ["A video game experience."]);
                           ("player_mode", ["Both"])]).
Proof. vm_compute. by split. Qed.

(** Without a [game_title] column the first row raises [KeyError], before
    any call, and the frame is left as it was. *)
Example no_title_column :
  let run := process_dataframe scripted me 0 (world_of untitled answers) in
  run.1 = inl (KeyError "game_title")
  ∧ heap run.2 !! 0 = Some untitled
  ∧ calls (trace run.2) = [].
Proof. vm_compute. by repeat split. Qed.

Ltac by_decide :=
  match goal with
  | |- ?P => apply (@bool_decide_unpack P _); vm_compute; exact I
  end.


(** C5, as stated, fails: a frame that already has a [genre] column keeps
    that column where it stands, with new values; two columns are added, not
    three, and the old columns are not all kept. *)
Lemma process_dataframe_overwrites_genre :
  let run := process_dataframe scripted me 0 (world_of games_with_genre answers) in
  column "game_title" games_with_genre = Some ["Pong"]
  ∧ run.1 = inr 0
  ∧ heap run.2 !! 0
    = Some (mkDataFrame 1 [("game_title", ["Pong"]); ("genre", ["Strategy"]);
                           ("short_description", ["A video game experience."]);
                           ("player_mode", ["Both"])])
  ∧ ¬ (∃ d', heap run.2 !! 0 = Some d'
             ∧ df_columns games_with_genre `prefix_of` df_columns d').
Proof.
  vm_compute. repeat split.
  intros (d' & [= <-] & k & Hk). simpl in Hk. discriminate.
Qed.

Lemma process_dataframe_appends_columns_witness :
  ∃ w' genres descriptions player_modes,
    process_dataframe scripted me 0 (world_of games answers) = (inr 0, w')
    ∧ heap w' !! 0
      = Some (mkDataFrame (df_len games)
                (df_columns games ++ [("genre", genres);
                                      ("short_description", descriptions);
                                      ("player_mode", player_modes)]))
    ∧ length genres = df_len games
    ∧ length descriptions = df_len games
    ∧ length player_modes = df_len games.
Proof.
  apply (process_dataframe_appends_columns scripted me 0 (world_of games answers) games
           ["Chess Master 3000"; "Pong"]).
  - reflexivity.
  - by_decide.
  - reflexivity.
  - by_decide.
  - by_decide.
  - by_decide.
Defined.

Lemma calls_and_delays_in_row_order_witness :
  ∃ w' new,
    process_dataframe scripted me 0 (world_of games answers) = (inr 0, w')
    ∧ trace w' = trace (world_of games answers) ++ new
    ∧ schedule new
      = concat (row_schedule (api_delay me) <$> ["Chess Master 3000"; "Pong"])
    ∧ (["Chess Master 3000"; "Pong"] ≠ [] →
       last (schedule new) = Some (Delay (api_delay me))).
Proof.
  apply (calls_and_delays_in_row_order scripted me 0 (world_of games answers) games
           ["Chess Master 3000"; "Pong"]).
  - reflexivity.
  - by_decide.
  - reflexivity.
Defined.

(** C7, as stated, fails: after the run the object that was passed in has
    five columns instead of two, and the reference returned is the one that
    was passed in. *)
Lemma process_dataframe_mutates_input :
  let w := world_of games answers in
  let run := process_dataframe scripted me 0 w in
  heap w !! 0 = Some games
  ∧ run.1 = inr 0
  ∧ heap run.2 !! 0 ≠ heap w !! 0
  ∧ (column_names <$> heap run.2 !! 0)
    = Some ["game_title"; "year"; "genre"; "short_description"; "player_mode"].
Proof. vm_compute. repeat split. discriminate. Qed.

Lemma process_dataframe_in_place_witness :
  ∃ w' d',
    process_dataframe scripted me 0 (world_of games answers) = (inr 0, w')
    ∧ heap w' !! 0 = Some d'
    ∧ is_Some (column "genre" d')
    ∧ is_Some (column "short_description" d')
    ∧ is_Some (column "player_mode" d')
    ∧ df_len d' = df_len games
    ∧ (∀ name, name ∉ new_columns → column name d' = column name games)
    ∧ (∀ l, l ≠ 0 → heap w' !! l = heap (world_of games answers) !! l).
Proof.
  apply (process_dataframe_in_place scripted me 0 (world_of games answers) games
           ["Chess Master 3000"; "Pong"]).
  - reflexivity.
  - by_decide.
  - reflexivity.
Defined.

Lemma process_dataframe_empty_witness :
  ∃ w' d' new,
    process_dataframe scripted me 0 (world_of no_games answers) = (inr 0, w')
    ∧ heap w' !! 0 = Some d'
    ∧ df_len d' = 0
    ∧ trace w' = trace (world_of no_games answers) ++ new
    ∧ calls new = []
    ∧ schedule new = []
    ∧ service w' = service (world_of no_games answers).
Proof.
  apply (process_dataframe_empty scripted me 0 (world_of no_games answers) no_games);
    reflexivity.
Defined.

Lemma blank_response_gives_empty_field_witness :
  (classify_genre scripted me "Pong" (world_of games [inr blank])).1 = inr EmptyString
  ∧ (generate_description scripted me "Pong" (world_of games [inr blank])).1
    = inr EmptyString.
Proof.
  destruct (blank_response_gives_empty_field scripted me "Pong"
              (world_of games [inr blank]) blank [] eq_refl) as (Hg & Hd & _).
  split; [apply Hg | apply Hd]; reflexivity.
Defined.

(** * Further properties of the code *)

(** ** More facts about strings *)

Lemma rstrip_idem (s : string) : rstrip (rstrip s) = rstrip s.
Proof.
  induction s as [|c s IH]; simpl; [done |].
  destruct (is_empty (rstrip s) && isspace c) eqn:E; simpl; [done |].
  by rewrite IH, E.
Qed.

Lemma lstrip_rstrip_lstrip (s : string) : lstrip (rstrip (lstrip s)) = rstrip (lstrip s).
Proof.
  destruct (rstrip (lstrip s)) as [|c r] eqn:E; [done |].
  apply rstrip_head in E as [r' E]. apply lstrip_head in E.
  simpl. by rewrite E.
Qed.

(** Trimming a trimmed text changes nothing. *)
Lemma strip_idem (s : string) : strip (strip s) = strip s.
Proof. unfold strip. by rewrite lstrip_rstrip_lstrip, rstrip_idem. Qed.

Lemma rstrip_snoc (a : string) c :
  isspace c = false → rstrip (a +:+ String c EmptyString) = a +:+ String c EmptyString.
Proof.
  intros Hc. induction a as [|x a IH].
  - rewrite str_app_nil_l. simpl. by rewrite Hc.
  - rewrite str_app_cons. simpl. rewrite IH.
    destruct a; by rewrite ?str_app_nil_l, ?str_app_cons.
Qed.

Lemma rstrip_no_space (w : string) : no_space w = true → rstrip w = w.
Proof.
  induction w as [|c w IH]; simpl; [done |].
  intros H. apply andb_prop in H as [Hc Hw]. apply negb_true_iff in Hc.
  by rewrite IH, Hc, andb_false_r.
Qed.

Lemma lstrip_no_space (w : string) : no_space w = true → lstrip w = w.
Proof.
  destruct w as [|c w]; simpl; [done |].
  intros H. apply andb_prop in H as [Hc _]. apply negb_true_iff in Hc. by rewrite Hc.
Qed.

Lemma strip_no_space (w : string) : no_space w = true → strip w = w.
Proof. intros H. unfold strip. by rewrite lstrip_no_space, rstrip_no_space. Qed.

Lemma contains_space_no_space (w : string) :
  no_space w = true → contains " " w = false.
Proof.
  induction w as [|c w IH]; [done |].
  cbn [no_space]. intros H. apply andb_prop in H as [Hc Hw]. apply negb_true_iff in Hc.
  cbn [contains startswith]. rewrite IH by done.
  destruct (ascii_dec " " c) as [<-|]; [| done].
  vm_compute in Hc. discriminate.
Qed.

Lemma join_head (w : string) (ws : list string) c r :
  w = String c r → ∃ r', join " " (w :: ws) = String c r'.
Proof.
  intros ->. destruct ws as [|w' ws]; simpl; [eauto |].
  rewrite str_app_cons. eauto.
Qed.

(** ** The normalisers as functions on their own results *)

Lemma normalize_genre_shape (raw : string) :
  strip (normalize_genre raw) = normalize_genre raw
  ∧ contains " " (normalize_genre raw) = false.
Proof.
  destruct (contains " " (strip raw)) eqn:E.
  - destruct (genre_of_text_space raw E) as (w & w' & ws & Hs & Hg).
    unfold normalize_genre. rewrite Hg.
    pose proof (split_words (strip raw)) as Hw. rewrite Hs in Hw.
    apply Forall_cons in Hw as [[_ Hw] _].
    split; [by apply strip_no_space | by apply contains_space_no_space].
  - unfold normalize_genre, genre_of_text. rewrite E.
    split; [apply strip_idem | done].
Qed.

(** X1: the genre never holds a space character and has no whitespace at
    either end. *)
Theorem normalize_genre_no_space (raw : string) :
  contains " " (normalize_genre raw) = false
  ∧ strip (normalize_genre raw) = normalize_genre raw.
Proof. destruct (normalize_genre_shape raw). by split. Qed.

(** X2: normalising a genre again gives the same genre. *)
Theorem normalize_genre_idempotent (raw : string) :
  normalize_genre (normalize_genre raw) = normalize_genre raw.
Proof.
  destruct (normalize_genre_shape raw) as [Hs Hc].
  unfold normalize_genre at 1. unfold genre_of_text. by rewrite Hs, Hc.
Qed.

(** X3: the [try] body of [classify_genre] raises nothing itself: [split()[0]]
    is only evaluated on a text with at least two words.  The [except] branch
    is entered for a failure of the model call only. *)
Theorem genre_index_in_range (text : string) :
  (∀ e, genre_of_text text ≠ inl e)
  ∧ (contains " " (strip text) = true → 2 ≤ length (split (strip text))).
Proof.
  split.
  - intros e. by rewrite genre_of_text_ok.
  - intros E. destruct (genre_of_text_space text E) as (w & w' & ws & -> & _).
    simpl. lia.
Qed.

Lemma genre_index_in_range_witness : 2 ≤ length (split (strip " Strategy game. ")).
Proof.
  destruct (genre_index_in_range " Strategy game. ") as [_ H].
  apply H. reflexivity.
Defined.

Lemma truncated_shape (ws : list string) :
  Forall is_word ws → 29 ≤ length ws →
  let out := join " " (take 29 ws) +:+ "." in
  strip out = out ∧ length (split out) = 29.
Proof.
  intros Hws Hlen out.
  destruct (lookup_lt_is_Some_2 ws 28) as [w Hw]; [lia |].
  assert (Hout : out = join " " (take 28 ws ++ [w +:+ "."])).
  { unfold out. by rewrite (take_S_r _ _ _ Hw), join_snoc. }
  split.
  - unfold strip.
    assert (Hl : lstrip out = out).
    { destruct ws as [|w0 ws]; [simpl in Hlen; lia |].
      apply Forall_cons in Hws as [[Hne Hw0] _].
      destruct w0 as [|c r]; [done |].
      simpl in Hw0. apply andb_prop in Hw0 as [Hc _]. apply negb_true_iff in Hc.
      unfold out. cbn [take].
      destruct (join_head (String c r) (take 28 ws) c r eq_refl) as [r' ->].
      rewrite str_app_cons. simpl. by rewrite Hc. }
    rewrite Hl. unfold out. by apply rstrip_snoc.
  - rewrite Hout, split_join.
    + rewrite length_app, length_take. cbn [length]. lia.
    + apply Forall_app. split; [by apply Forall_take |].
      constructor; [| constructor]. apply is_word_dot.
      eapply (proj1 (Forall_lookup _ _) Hws); eauto.
Qed.

Lemma normalize_description_shape (raw : string) :
  strip (normalize_description raw) = normalize_description raw
  ∧ length (split (normalize_description raw)) ≤ 30.
Proof.
  unfold normalize_description. case_bool_decide as Hlen.
  - destruct (truncated_shape (split (strip raw))) as [Hs Hn];
      [apply split_words | lia |].
    simpl in Hs, Hn. rewrite Hs, Hn. split; [done | lia].
  - split; [apply strip_idem | lia].
Qed.

(** X4: a description never has more than 30 words, and has no whitespace
    at either end. *)
Theorem normalize_description_at_most_30_words (raw : string) :
  length (split (normalize_description raw)) ≤ 30
  ∧ strip (normalize_description raw) = normalize_description raw.
Proof. destruct (normalize_description_shape raw). by split. Qed.

(** X5: normalising a description again gives the same description. *)
Theorem normalize_description_idempotent (raw : string) :
  normalize_description (normalize_description raw) = normalize_description raw.
Proof.
  destruct (normalize_description_shape raw) as [Hs Hn].
  unfold normalize_description at 1. rewrite Hs.
  case_bool_decide; [lia | done].
Qed.

Lemma normalize_player_mode_by_mentions (raw : string) :
  normalize_player_mode raw
  = if mentions "single" raw then "Singleplayer"
    else if mentions "multi" raw && negb (mentions "both" raw) then "Multiplayer"
    else "Both".
Proof.
  unfold normalize_player_mode. fold (mentions "single" raw).
  fold (mentions "multi" raw). fold (mentions "both" raw).
  case_bool_decide as Hin.
  - apply valid_mode_mentions in Hin as [H | [[H1 H2] | H]].
    + by rewrite H.
    + rewrite H1, H2. by destruct (mentions "single" raw).
    + rewrite H. by destruct (mentions "single" raw), (mentions "multi" raw).
  - by destruct (mentions "single" raw), (mentions "multi" raw), (mentions "both" raw).
Qed.

(** X6: each of the three labels is normalised to itself, and so normalising
    a player mode again gives the same player mode. *)
Theorem normalize_player_mode_idempotent (raw : string) :
  (∀ mode, mode ∈ valid_modes → normalize_player_mode mode = mode)
  ∧ normalize_player_mode (normalize_player_mode raw) = normalize_player_mode raw.
Proof.
  assert (Hfix : ∀ mode, mode ∈ valid_modes → normalize_player_mode mode = mode).
  { intros mode. unfold valid_modes. rewrite !elem_of_cons, elem_of_nil.
    intros [-> | [-> | [-> | []]]]; reflexivity. }
  split; [done |]. apply Hfix.
  rewrite (normalize_player_mode_by_mentions raw). unfold valid_modes.
  destruct (mentions "single" raw); [by left |].
  destruct (mentions "multi" raw && negb (mentions "both" raw));
    [right; by left | right; right; by left].
Qed.

Lemma normalize_player_mode_idempotent_witness :
  normalize_player_mode "Multiplayer" = "Multiplayer".
Proof.
  destruct (normalize_player_mode_idempotent EmptyString) as [H _].
  apply H. by_decide.
Defined.

(** X7: the player mode depends on the response only up to letter case and
    surrounding whitespace, the exact-match step included. *)
Theorem normalize_player_mode_case_insensitive (a b : string) :
  lower (strip a) = lower (strip b) →
  normalize_player_mode a = normalize_player_mode b.
Proof.
  intros H. rewrite !normalize_player_mode_by_mentions. unfold mentions. by rewrite H.
Qed.

Lemma normalize_player_mode_case_insensitive_witness :
  normalize_player_mode "  MULTIPLAYER " = normalize_player_mode "Multiplayer".
Proof. apply normalize_player_mode_case_insensitive. reflexivity. Defined.

(** ** [__init__] *)

(** X8: [__init__] takes the explicit key when it is not empty, the
    environment's key otherwise, sets the delay to 5 seconds, and raises
    [ValueError] exactly when neither key is there or not empty. *)
Theorem init_key_precedence (key env_key : option string) :
  (∀ k, key = Some k → k ≠ EmptyString → init key env_key = inr (mkEnricher k 5))
  ∧ (key = None ∨ key = Some EmptyString →
     ∀ k, env_key = Some k → k ≠ EmptyString →
     init key env_key = inr (mkEnricher k 5))
  ∧ (key = None ∨ key = Some EmptyString →
     env_key = None ∨ env_key = Some EmptyString →
     init key env_key = inl (ValueError no_api_key)).
Proof.
  unfold init. repeat split.
  - intros k -> Hk. by destruct k.
  - intros [-> | ->] k -> Hk; by destruct k.
  - intros [-> | ->] [-> | ->]; done.
Qed.

Lemma init_key_precedence_witness :
  init (Some "given") (Some "env") = inr (mkEnricher "given" 5)
  ∧ init (Some EmptyString) (Some "env") = inr (mkEnricher "env" 5)
  ∧ init None None = inl (ValueError no_api_key).
Proof.
  split; [| split].
  - destruct (init_key_precedence (Some "given") (Some "env")) as (H & _).
    by apply H.
  - destruct (init_key_precedence (Some EmptyString) (Some "env")) as (_ & H & _).
    apply H; [by right | done | done].
  - destruct (init_key_precedence None None) as (_ & _ & H).
    apply H; by left.
Defined.

(** ** More on column assignment *)

Lemma set_column_names name vs cols :
  (set_column name vs cols).*1
  = if decide (name ∈ cols.*1) then cols.*1 else cols.*1 ++ [name].
Proof.
  induction cols as [|[k old] cols IH].
  - cbn [set_column fmap list_fmap]. case_decide as H; [by apply elem_of_nil in H | done].
  - cbn [set_column]. destruct (decide (k = name)) as [->|Hne].
    + rewrite fmap_cons. cbn [fst]. rewrite decide_True; [done | by left].
    + rewrite !fmap_cons, IH. cbn [fst].
      destruct (decide (name ∈ cols.*1)) as [Hin|Hnin].
      * rewrite decide_True; [done | by right].
      * rewrite decide_False; [done |].
        apply not_elem_of_cons. by split.
Qed.

Lemma set_column_elem_of name name' vs cols :
  name' ∈ cols.*1 ∨ name' = name → name' ∈ (set_column name vs cols).*1.
Proof.
  rewrite set_column_names. intros [H | ->].
  - case_decide; [done | apply elem_of_app; by left].
  - case_decide; [done | apply elem_of_app; right; by left].
Qed.

Lemma set_column_NoDup name vs cols :
  NoDup cols.*1 → NoDup (set_column name vs cols).*1.
Proof.
  intros H. rewrite set_column_names. case_decide as Hin; [done |].
  apply NoDup_app. split; [done |]. split.
  - intros x Hx Hx'. apply list_elem_of_singleton in Hx' as ->. done.
  - apply NoDup_singleton.
Qed.

Lemma set_column_lengths name vs cols n :
  Forall (λ col : string * list string, length col.2 = n) cols → length vs = n →
  Forall (λ col : string * list string, length col.2 = n) (set_column name vs cols).
Proof.
  intros H Hvs. induction H as [|[k old] cols Hk Hcols IH]; simpl.
  - by repeat constructor.
  - destruct (decide (k = name)); constructor; simpl in *; done.
Qed.

Lemma set_column_twice name vs vs' cols :
  set_column name vs' (set_column name vs cols) = set_column name vs' cols.
Proof.
  induction cols as [|[k old] cols IH]; simpl.
  - by rewrite decide_True.
  - destruct (decide (k = name)) as [->|Hne]; simpl.
    + by rewrite decide_True.
    + by rewrite decide_False, IH.
Qed.

(** Two assignments to different columns commute when one of the columns
    is there already. *)
Lemma set_column_comm name name' vs vs' cols :
  name ≠ name' → name ∈ cols.*1 →
  set_column name vs (set_column name' vs' cols)
  = set_column name' vs' (set_column name vs cols).
Proof.
  intros Hne. induction cols as [|[k old] cols IH]; simpl.
  - by rewrite elem_of_nil.
  - intros Hin. destruct (decide (k = name')) as [->|Hk'].
    + rewrite decide_False by done. simpl.
      rewrite decide_False by done. rewrite decide_True by done. done.
    + destruct (decide (k = name)) as [->|Hk]; simpl.
      * rewrite decide_True by done. by rewrite decide_False.
      * rewrite !decide_False by done.
        apply elem_of_cons in Hin as [Hin | Hin]; [done |].
        by rewrite IH.
Qed.

Lemma enriched_wf d os :
  df_wf d → length os = df_len d → df_wf (enriched d os).
Proof.
  intros [Hnd Hlen] Hos. split; simpl.
  - by do 3 apply set_column_NoDup.
  - do 3 (apply set_column_lengths; [| by rewrite length_fmap]). done.
Qed.

Lemma enriched_twice d os os' :
  enriched (enriched d os) os' = enriched d os'.
Proof.
  unfold enriched. simpl. f_equal.
  set (g := (λ o : outcomes, genre_field o.1.1) <$> os).
  set (sd := (λ o : outcomes, description_field o.1.2) <$> os).
  set (pm := (λ o : outcomes, player_mode_field o.2) <$> os).
  set (g' := (λ o : outcomes, genre_field o.1.1) <$> os').
  set (sd' := (λ o : outcomes, description_field o.1.2) <$> os').
  set (pm' := (λ o : outcomes, player_mode_field o.2) <$> os').
  set (c := df_columns d).
  rewrite (set_column_comm "genre" "player_mode");
    [| done | apply set_column_elem_of; left; apply set_column_elem_of; by right].
  rewrite (set_column_comm "genre" "short_description");
    [| done | apply set_column_elem_of; by right].
  rewrite set_column_twice.
  rewrite (set_column_comm "short_description" "player_mode");
    [| done | apply set_column_elem_of; by right].
  by rewrite set_column_twice, set_column_twice.
Qed.

Lemma set_column_names_ext name vs vs' (cols cols' : list (string * list string)) :
  cols.*1 = cols'.*1 → (set_column name vs cols).*1 = (set_column name vs' cols').*1.
Proof. intros H. by rewrite !set_column_names, H. Qed.

(** The column names after a run do not depend on what the calls gave. *)
Lemma enriched_names d os os' :
  column_names (enriched d os) = column_names (enriched d os').
Proof.
  unfold column_names, enriched. simpl. by do 3 apply set_column_names_ext.
Qed.

(** ** What the fields of a run are like *)

Lemma genre_field_shape o : contains " " (genre_field o) = false.
Proof. destruct o as [e | text]; [done | apply normalize_genre_shape]. Qed.

Lemma description_field_shape o : length (split (description_field o)) ≤ 30.
Proof.
  destruct o as [e | text]; [vm_compute; lia | apply normalize_description_shape].
Qed.

Lemma player_mode_field_shape o : player_mode_field o ∈ valid_modes.
Proof.
  destruct o as [e | text]; simpl.
  - unfold valid_modes. right; right; by left.
  - rewrite normalize_player_mode_by_mentions. unfold valid_modes.
    destruct (mentions "single" text); [by left |].
    destruct (mentions "multi" text && negb (mentions "both" text));
      [right; by left | right; right; by left].
Qed.

Lemma pause_total_app tr tr' :
  (pause_total (tr ++ tr') == pause_total tr + pause_total tr')%Q.
Proof.
  induction tr as [|e tr IH].
  - change (pause_total tr' == 0 + pause_total tr')%Q. by rewrite Qplus_0_l.
  - destruct e as [p o | d | line].
    + exact IH.
    + change (d + pause_total (tr ++ tr') == d + pause_total tr + pause_total tr')%Q.
      by rewrite IH, Qplus_assoc.
    + exact IH.
Qed.

Lemma pause_total_error_line what t o : pause_total (error_line what t o) = 0%Q.
Proof. by destruct o. Qed.

Lemma pause_total_row_events self total idx t o :
  (pause_total (row_events self total idx t o) == 3 * api_delay self)%Q.
Proof.
  unfold row_events. rewrite !pause_total_app, !pause_total_error_line.
  cbn [pause_total foldr]. ring.
Qed.

Lemma pause_total_loop_events self total idxs titles os :
  length idxs = length titles → length os = length titles →
  (pause_total (loop_events self total idxs titles os)
   == inject_Z (3 * Z.of_nat (length titles)) * api_delay self)%Q.
Proof.
  revert idxs os. induction titles as [|t ts IH]; intros [|i idxs] [|o os]; try done.
  intros [= Hi] [= Ho]. cbn [loop_events].
    rewrite pause_total_app, pause_total_row_events, IH by done.
    cbn [length]. rewrite Nat2Z.inj_succ.
    replace (3 * Z.succ (Z.of_nat (length ts)))%Z
      with (3 + 3 * Z.of_nat (length ts))%Z by lia.
    rewrite inject_Z_plus. change (inject_Z 3) with 3%Q. ring.
Qed.

(** ** More on the methods and the row loop *)

Section MoreRuns.

Context {Svc : Type}.
Variable generate : Svc → string → result string * Svc.

(** X9: a model call that returns a text or raises an [Exception] never
    makes a method raise, console output taken to succeed.  (These are the
    outcomes a service has here; a [BaseException] such as
    [KeyboardInterrupt] is no [exn], and the [except Exception] of lines 52,
    77 and 113 lets it through.)  The method returns the normalised text,
    or the fallback of its kind when the call raised, having made that one
    call, with its own prompt, and touched no frame. *)
Theorem methods_absorb_exceptions self t (w : world Svc) :
  (∃ w' new o,
     classify_genre generate self t w = (inr (genre_field o), w')
     ∧ generate (service w) (genre_prompt t) = (o, service w')
     ∧ heap w' = heap w ∧ trace w' = trace w ++ new
     ∧ calls new = [(genre_prompt t, o)])
  ∧ (∃ w' new o,
       generate_description generate self t w = (inr (description_field o), w')
       ∧ generate (service w) (description_prompt t) = (o, service w')
       ∧ heap w' = heap w ∧ trace w' = trace w ++ new
       ∧ calls new = [(description_prompt t, o)])
  ∧ (∃ w' new o,
       determine_player_mode generate self t w = (inr (player_mode_field o), w')
       ∧ generate (service w) (player_mode_prompt t) = (o, service w')
       ∧ heap w' = heap w ∧ trace w' = trace w ++ new
       ∧ calls new = [(player_mode_prompt t, o)]).
Proof.
  split; [| split].
  - destruct (generate (service w) (genre_prompt t)) as [o s'] eqn:E.
    eexists _, _, o. split; [by apply classify_genre_run |].
    simpl. repeat split. unfold calls. simpl. fold calls.
    by rewrite calls_error_line.
  - destruct (generate (service w) (description_prompt t)) as [o s'] eqn:E.
    eexists _, _, o. split; [by apply generate_description_run |].
    simpl. repeat split. unfold calls. simpl. fold calls.
    by rewrite calls_error_line.
  - destruct (generate (service w) (player_mode_prompt t)) as [o s'] eqn:E.
    eexists _, _, o. split; [by apply determine_player_mode_run |].
    simpl. repeat split. unfold calls. simpl. fold calls.
    by rewrite calls_error_line.
Qed.

Lemma process_dataframe_KeyError self df (w : world Svc) d :
  heap w !! df = Some d → 0 < df_len d → column "game_title" d = None →
  process_dataframe generate self df w
  = (inl (KeyError "game_title"),
     mkWorld (heap w) (service w)
       (trace w ++ [Print ("Processing " +:+ of_nat (df_len d) +:+ " games...");
                    Print (times "-" 50)])).
Proof.
  intros Hd Hn Hcol.
  unfold process_dataframe, bind at 1, deref. rewrite Hd.
  unfold bind at 1, print at 1, emit.
  unfold bind at 1, print at 1, emit.
  unfold bind at 1. unfold iterrows.
  destruct (df_len d) as [|n] eqn:En; [lia |].
  cbn [seq map loop]. unfold bind at 1, loop_body, bind at 1, lift.
  unfold series_getitem, row_at. unfold column in Hcol.
  rewrite assoc_row_at, Hcol. cbn [fmap option_fmap option_map heap service trace].
  by rewrite <- app_assoc.
Qed.

(** X10: on a frame that has rows but no [game_title] column,
    [process_dataframe] raises [KeyError] at the first row: after the two
    opening lines nothing has happened, no call, no pause, no new column. *)
Theorem process_dataframe_missing_title_column self df (w : world Svc) d :
  heap w !! df = Some d → 0 < df_len d → column "game_title" d = None →
  process_dataframe generate self df w
  = (inl (KeyError "game_title"),
     mkWorld (heap w) (service w)
       (trace w ++ [Print ("Processing " +:+ of_nat (df_len d) +:+ " games...");
                    Print (times "-" 50)])).
Proof. apply process_dataframe_KeyError. Qed.

(** X11: [process_dataframe] keeps a frame well formed: afterwards the column
    names are still distinct, every column has one value per row, and the
    titles are as before. *)
Theorem process_dataframe_keeps_wf self df (w : world Svc) d titles :
  heap w !! df = Some d → df_wf d → column "game_title" d = Some titles →
  ∃ w' d',
    process_dataframe generate self df w = (inr df, w')
    ∧ heap w' !! df = Some d'
    ∧ df_wf d'
    ∧ column "game_title" d' = Some titles.
Proof.
  intros Hd Hwf Hcol.
  pose proof (iterrows_titles d titles Hwf Hcol) as Hrows.
  destruct (rows_outcomes generate (service w) titles) as [os s'] eqn:Hos.
  assert (Hlen : length os = df_len d).
  { pose proof (rows_outcomes_length generate (service w) titles) as H.
    rewrite Hos in H. apply Forall2_length in Hrows.
    rewrite iterrows_length in Hrows. simpl in H. lia. }
  eexists _, (enriched d os). split; [by eapply process_dataframe_run |].
  simpl. split; [apply lookup_insert_eq |].
  split; [by apply enriched_wf |].
  rewrite enriched_other; [done |]. by_decide.
Qed.

(** X12: every value a run records is of its kind: a genre without a space
    character, a description of at most 30 words, a player mode that is one
    of the three labels. *)
Theorem process_dataframe_values self df (w : world Svc) d titles :
  heap w !! df = Some d → df_wf d → column "game_title" d = Some titles →
  ∃ w' d',
    process_dataframe generate self df w = (inr df, w')
    ∧ heap w' !! df = Some d'
    ∧ ∀ i v,
        (cell "genre" d' i = Some v → contains " " v = false)
        ∧ (cell "short_description" d' i = Some v → length (split v) ≤ 30)
        ∧ (cell "player_mode" d' i = Some v → v ∈ valid_modes).
Proof.
  intros Hd Hwf Hcol.
  pose proof (iterrows_titles d titles Hwf Hcol) as Hrows.
  destruct (rows_outcomes generate (service w) titles) as [os s'] eqn:Hos.
  eexists _, (enriched d os). split; [by eapply process_dataframe_run |].
  simpl. split; [apply lookup_insert_eq |].
  intros i v. unfold cell.
  rewrite enriched_genre, enriched_short_description, enriched_player_mode. simpl.
  rewrite !list_lookup_fmap.
  destruct (os !! i) as [o|]; simpl; [| done].
  split; [| split]; intros [= <-].
  - apply genre_field_shape.
  - apply description_field_shape.
  - apply player_mode_field_shape.
Qed.

(** X13: [process_dataframe] can be run again on the frame it has enriched:
    the second run replaces the three columns where they stand, so that the
    frame is the one a single run with the second run's outcomes gives, with
    the same column names as after the first run. *)
Theorem process_dataframe_twice self df (w : world Svc) d titles :
  heap w !! df = Some d → df_wf d → column "game_title" d = Some titles →
  ∃ w1 w2 d1 os2,
    process_dataframe generate self df w = (inr df, w1)
    ∧ heap w1 !! df = Some d1
    ∧ process_dataframe generate self df w1 = (inr df, w2)
    ∧ rows_outcomes generate (service w1) titles = (os2, service w2)
    ∧ heap w2 !! df = Some (enriched d os2)
    ∧ column_names (enriched d os2) = column_names d1.
Proof.
  intros Hd Hwf Hcol.
  pose proof (iterrows_titles d titles Hwf Hcol) as Hrows.
  destruct (rows_outcomes generate (service w) titles) as [os1 s1] eqn:Hos1.
  destruct (rows_outcomes generate s1 titles) as [os2 s2] eqn:Hos2.
  assert (Hlen : length os1 = df_len d).
  { pose proof (rows_outcomes_length generate (service w) titles) as H.
    rewrite Hos1 in H. apply Forall2_length in Hrows.
    rewrite iterrows_length in Hrows. simpl in H. lia. }
  assert (Hwf1 : df_wf (enriched d os1)) by by apply enriched_wf.
  assert (Hcol1 : column "game_title" (enriched d os1) = Some titles).
  { rewrite enriched_other; [done |]. by_decide. }
  pose proof (iterrows_titles _ titles Hwf1 Hcol1) as Hrows1.
  eexists _, _, (enriched d os1), os2.
  split; [by eapply process_dataframe_run |].
  split; [apply lookup_insert_eq |].
  split.
  { eapply process_dataframe_run; [apply lookup_insert_eq | exact Hrows1 |].
    simpl. exact Hos2. }
  simpl. split; [done |].
  rewrite insert_insert_eq, lookup_insert_eq, enriched_twice.
  split; [done |]. apply enriched_names.
Qed.

Lemma length_row_calls titles (os : list outcomes) :
  length os = length titles →
  length (concat (zip_with row_calls titles os)) = 3 * length titles.
Proof.
  revert os. induction titles as [|t ts IH]; intros [|o os]; try done.
  intros [= Ho]. cbn [zip_with concat]. rewrite length_app, IH by done.
  simpl. lia.
Qed.

(** X14: a run makes three model calls per row and sleeps three times
    [api_delay] per row. *)
Theorem process_dataframe_cost self df (w : world Svc) d titles :
  heap w !! df = Some d → df_wf d → column "game_title" d = Some titles →
  ∃ w' new,
    process_dataframe generate self df w = (inr df, w')
    ∧ trace w' = trace w ++ new
    ∧ length (calls new) = 3 * df_len d
    ∧ (pause_total new == inject_Z (3 * Z.of_nat (df_len d)) * api_delay self)%Q.
Proof.
  intros Hd Hwf Hcol.
  pose proof (iterrows_titles d titles Hwf Hcol) as Hrows.
  destruct (rows_outcomes generate (service w) titles) as [os s'] eqn:Hos.
  assert (Hlen : length os = length titles).
  { pose proof (rows_outcomes_length generate (service w) titles) as H.
    by rewrite Hos in H. }
  assert (Hn : length titles = df_len d).
  { apply Forall2_length in Hrows. by rewrite iterrows_length in Hrows. }
  eexists _, _. split; [by eapply process_dataframe_run |].
  split; [done |]. split.
  - unfold calls. rewrite omap_app. fold calls. simpl.
    rewrite calls_loop_events, length_row_calls; [lia | done | | done].
    by rewrite length_seq.
  - rewrite pause_total_app.
    rewrite pause_total_loop_events; [| by rewrite length_seq | done].
    rewrite Hn. cbn [pause_total foldr]. ring.
Qed.

End MoreRuns.

Lemma process_dataframe_missing_title_column_witness :
  process_dataframe scripted me 0 (world_of untitled answers)
  = (inl (KeyError "game_title"),
     mkWorld (heap (world_of untitled answers)) (service (world_of untitled answers))
       (trace (world_of untitled answers)
        ++ [Print ("Processing " +:+ of_nat (df_len untitled) +:+ " games...");
            Print (times "-" 50)])).
Proof.
  apply (process_dataframe_missing_title_column scripted me 0
           (world_of untitled answers) untitled).
  - reflexivity.
  - vm_compute. lia.
  - reflexivity.
Defined.

Lemma process_dataframe_keeps_wf_witness :
  ∃ w' d',
    process_dataframe scripted me 0 (world_of games_with_genre answers) = (inr 0, w')
    ∧ heap w' !! 0 = Some d'
    ∧ df_wf d'
    ∧ column "game_title" d' = Some ["Pong"].
Proof.
  apply (process_dataframe_keeps_wf scripted me 0 (world_of games_with_genre answers)
           games_with_genre ["Pong"]).
  - reflexivity.
  - by_decide.
  - reflexivity.
Defined.

Lemma process_dataframe_values_witness :
  ∃ w' d',
    process_dataframe scripted me 0 (world_of games answers) = (inr 0, w')
    ∧ heap w' !! 0 = Some d'
    ∧ ∀ i v,
        (cell "genre" d' i = Some v → contains " " v = false)
        ∧ (cell "short_description" d' i = Some v → length (split v) ≤ 30)
        ∧ (cell "player_mode" d' i = Some v → v ∈ valid_modes).
Proof.
  apply (process_dataframe_values scripted me 0 (world_of games answers) games
           ["Chess Master 3000"; "Pong"]).
  - reflexivity.
  - by_decide.
  - reflexivity.
Defined.

Lemma process_dataframe_twice_witness :
  ∃ w1 w2 d1 os2,
    process_dataframe scripted me 0 (world_of games answers) = (inr 0, w1)
    ∧ heap w1 !! 0 = Some d1
    ∧ process_dataframe scripted me 0 w1 = (inr 0, w2)
    ∧ rows_outcomes scripted (service w1) ["Chess Master 3000"; "Pong"]
      = (os2, service w2)
    ∧ heap w2 !! 0 = Some (enriched games os2)
    ∧ column_names (enriched games os2) = column_names d1.
Proof.
  apply (process_dataframe_twice scripted me 0 (world_of games answers) games
           ["Chess Master 3000"; "Pong"]).
  - reflexivity.
  - by_decide.
  - reflexivity.
Defined.

Lemma process_dataframe_cost_witness :
  ∃ w' new,
    process_dataframe scripted me 0 (world_of games answers) = (inr 0, w')
    ∧ trace w' = trace (world_of games answers) ++ new
    ∧ length (calls new) = 3 * df_len games
    ∧ (pause_total new == inject_Z (3 * Z.of_nat (df_len games)) * api_delay me)%Q.
Proof.
  apply (process_dataframe_cost scripted me 0 (world_of games answers) games
           ["Chess Master 3000"; "Pong"]).
  - reflexivity.
  - by_decide.
  - reflexivity.
Defined.

(** ** Selecting columns *)

Lemma column_names_elem_of name d vs : column name d = Some vs → name ∈ column_names d.
Proof.
  intros H. apply assoc_elem_of in H. unfold column_names.
  apply list_elem_of_fmap. by exists (name, vs).
Qed.

Lemma df_select_present names d :
  Forall (λ n, n ∈ column_names d) names → ∃ d', df_select names d = inr d'.
Proof.
  intros H. unfold df_select.
  assert (Hf : filter (λ n, n ∉ column_names d) names = []).
  { induction H as [|n names Hn _ IH]; [done |].
    rewrite filter_cons, decide_False; [done | by intros ?]. }
  rewrite Hf, decide_True by done. eauto.
Qed.

Lemma enriched_sample d os titles :
  column "game_title" d = Some titles →
  ∃ sample, df_select ["game_title"; "genre"; "player_mode"] (enriched d os) = inr sample.
Proof.
  intros Hcol. apply df_select_present. repeat constructor.
  - apply (column_names_elem_of _ _ titles). rewrite enriched_other; [done | by_decide].
  - eapply column_names_elem_of, enriched_genre.
  - eapply column_names_elem_of, enriched_player_mode.
Qed.

Lemma enriched_first_row d os name vs v :
  column name (enriched d os) = Some vs → vs !! 0 = Some v →
  series_getitem (row_at (enriched d os) 0) name = inr v.
Proof.
  intros Hcol Hv. unfold series_getitem, row_at. unfold column in Hcol.
  rewrite assoc_row_at, Hcol. simpl. by rewrite Hv.
Qed.

(** ** The script *)

Section MainRuns.

Context {Svc FS : Type}.
Variable generate : Svc → string → result string * Svc.
Variable path_exists : FS → string → bool.
Variable read_csv : FS → string → string + DataFrame.
Variable to_csv : FS → string → DataFrame → (string + unit) * FS.
Variable getenv_key : option string.
Variable configure : string → result unit.
Variable show : DataFrame → string.
Variable not_in_index : list string → string.

Abbreviation main' :=
  (main generate path_exists read_csv to_csv getenv_key configure show not_in_index).

Ltac script :=
  cbv [main sbind say run print emit attempt exit sret load save select alloc
       deref lift construct];
  cbn [files mem heap service trace].

Ltac trace_done :=
  split; [reflexivity |]; split; [reflexivity |];
  split; [rewrite <- !app_assoc; reflexivity | reflexivity].

(** X15: without the input file the script prints the banner and two lines
    of explanation and exits with status 1: nothing is read or written, no
    object is made and the model is not called. *)
Theorem main_missing_input (st : machine Svc FS) :
  path_exists (files st) input_file = false →
  main' st
  = (inl (SystemExit 1),
     mkMachine (files st)
       (mkWorld (heap (mem st)) (service (mem st))
          (trace (mem st)
           ++ [Print (times "=" 60);
               Print "Video Game Data Enhancement Script";
               Print (times "=" 60);
               Print EmptyString;
               Print ("Error: Input file '" +:+ input_file +:+ "' not found.");
               Print "Please ensure the Game_Thumbnail.csv file is in the same directory."]))).
Proof.
  intros H. script. rewrite H. cbn [files mem heap service trace].
  by rewrite <- !app_assoc.
Qed.

(** X16: without an API key, in the environment or empty, the script exits
    with status 1 whatever the files are: no file is written and the model
    is not called. *)
Theorem main_missing_key (st : machine Svc FS) :
  getenv_key = None ∨ getenv_key = Some EmptyString →
  ∃ st' new,
    main' st = (inl (SystemExit 1), st')
    ∧ files st' = files st
    ∧ service (mem st') = service (mem st)
    ∧ trace (mem st') = trace (mem st) ++ new
    ∧ calls new = [].
Proof.
  intros Hkey. script.
  destruct (path_exists (files st) input_file); cbn [files mem heap service trace].
  - destruct (read_csv (files st) input_file) as [text | d];
      cbn [files mem heap service trace].
    + eexists _, _. split; [reflexivity |]. cbn [files mem heap service trace].
      trace_done.
    + rewrite lookup_insert_eq. cbn [files mem heap service trace].
      destruct Hkey as [-> | ->]; cbn [init is_empty files mem heap service trace].
      * eexists _, _. split; [reflexivity |]. cbn [files mem heap service trace].
        trace_done.
      * eexists _, _. split; [reflexivity |]. cbn [files mem heap service trace].
        trace_done.
  - eexists _, _. split; [reflexivity |]. cbn [files mem heap service trace].
    trace_done.
Qed.

Ltac script_to_construct :=
  cbv [main sbind say run print emit attempt exit sret load save select alloc
       deref lift];
  cbn [files mem heap service trace].


(** X18: as long as what [read_csv], the construction of the enricher, the
    model service and [to_csv] raise are [Exception]s, and console output
    succeeds, the script either runs to its end or exits with status 1:
    every such failure is raised inside one of the [try] blocks, and every
    handler ends in [sys.exit(1)].  (These are the failures the
    collaborators have here; a [BaseException] such as [KeyboardInterrupt],
    or a [SystemExit] of their own, passes every [except Exception] of
    lines 189-230.) *)
Theorem main_exit_status (st : machine Svc FS) :
  (main' st).1 = inr tt ∨ (main' st).1 = inl (SystemExit 1).
Proof.
  script_to_construct.
  repeat (case_match; cbn [files mem heap service trace fst] in *; simplify_eq);
    auto.
Qed.

(** X19: when the input has rows but no [game_title] column the script
    exits with status 1 at the first row: no file is written and the model
    is not called. *)
Theorem main_missing_title_column (st : machine Svc FS) d :
  path_exists (files st) input_file = true →
  read_csv (files st) input_file = inr d →
  0 < df_len d → column "game_title" d = None →
  ∃ st' new,
    main' st = (inl (SystemExit 1), st')
    ∧ files st' = files st
    ∧ service (mem st') = service (mem st)
    ∧ trace (mem st') = trace (mem st) ++ new
    ∧ calls new = [].
Proof.
  intros Hex Hread Hn Hcol.
  script_to_construct. rewrite Hex. cbn [files mem heap service trace].
  rewrite Hread. cbn [files mem heap service trace].
  rewrite lookup_insert_eq.
  destruct (construct getenv_key configure) as [e | enricher].
  { destruct e; cbn [files mem heap service trace];
      (eexists _, _; split; [reflexivity |]; cbn [files mem heap service trace];
       trace_done). }
  cbn [files mem heap service trace].
  erewrite process_dataframe_KeyError;
    [| cbn [heap]; apply lookup_insert_eq | done | done].
  cbn [files mem heap service trace exn_str].
  eexists _, _. split; [reflexivity |]. cbn [files mem heap service trace]. trace_done.
Qed.

(** X20: with the input file there, a key, rows with titles and a write
    that succeeds, the script runs to its end: it makes the three calls of
    each row in order and writes, once, the frame with the three columns set
    from those calls; the objects that were there before are as they
    were. *)
Theorem main_success (st : machine Svc FS) d titles enricher os s' fs' :
  path_exists (files st) input_file = true →
  read_csv (files st) input_file = inr d →
  df_wf d → column "game_title" d = Some titles → 0 < df_len d →
  construct getenv_key configure = inr enricher →
  rows_outcomes generate (service (mem st)) titles = (os, s') →
  to_csv (files st) output_file (enriched d os) = (inr tt, fs') →
  ∃ st' new,
    main' st = (inr tt, st')
    ∧ files st' = fs'
    ∧ service (mem st') = s'
    ∧ trace (mem st') = trace (mem st) ++ new
    ∧ calls new = concat (zip_with row_calls titles os)
    ∧ heap (mem st') = <[fresh (dom (heap (mem st))) := enriched d os]> (heap (mem st)).
Proof.
  intros Hex Hread Hwf Hcol Hn Hcon Hos Hto.
  pose proof (iterrows_titles d titles Hwf Hcol) as Hrows.
  assert (Hlen : length os = length titles).
  { pose proof (rows_outcomes_length generate (service (mem st)) titles) as H.
    by rewrite Hos in H. }
  assert (Hnt : length titles = df_len d).
  { apply Forall2_length in Hrows. by rewrite iterrows_length in Hrows. }
  destruct (enriched_sample d os titles Hcol) as [sample Hsample].
  destruct (lookup_lt_is_Some_2 titles 0) as [t Ht]; [lia |].
  destruct (lookup_lt_is_Some_2 os 0) as [o Ho]; [lia |].
  script_to_construct. rewrite Hex. cbn [files mem heap service trace].
  rewrite Hread. cbn [files mem heap service trace].
  rewrite lookup_insert_eq, Hcon. cbn [files mem heap service trace].
  erewrite process_dataframe_run;
    [| cbn [heap]; apply lookup_insert_eq | exact Hrows | exact Hos].
  cbn [files mem heap service trace].
  rewrite !lookup_insert_eq.
  destruct (to_csv _ _ _) as [r fs'']. injection Hto as -> ->.
  cbn [files mem heap service trace].
  rewrite ?lookup_insert_eq. cbn [files mem heap service trace].
  destruct (df_select _ _) as [missing | sample']; [discriminate Hsample |].
  cbn [files mem heap service trace].
  unfold df_iloc. rewrite decide_True by (cbn [enriched df_len]; lia).
  cbn [files mem heap service trace].
  erewrite (enriched_first_row d os "game_title" titles t);
    [| rewrite enriched_other; [done | by_decide] | done].
  cbn [files mem heap service trace].
  erewrite (enriched_first_row d os "short_description");
    [| apply enriched_short_description | by erewrite lookup_fmap_Some_2].
  cbn [files mem heap service trace].
  eexists _, _. split; [reflexivity |]. cbn [files mem heap service trace].
  split; [reflexivity |]. split; [reflexivity |].
  split; [rewrite <- !app_assoc; reflexivity |].
  split; [| by rewrite insert_insert_eq].
  unfold calls. rewrite !omap_app. fold calls. cbn [omap calls].
  rewrite calls_loop_events; [| by rewrite length_seq | done].
  by rewrite app_nil_r.
Qed.

End MainRuns.

Lemma main_missing_input_witness :
  (stub_main [] (Some "key") answers).1 = inl (SystemExit 1).
Proof.
  unfold stub_main. rewrite main_missing_input by reflexivity. reflexivity.
Defined.

Lemma main_missing_key_witness :
  (stub_main [(input_file, games)] None answers).1 = inl (SystemExit 1)
  ∧ files (stub_main [(input_file, games)] None answers).2 = [(input_file, games)].
Proof.
  unfold stub_main.
  destruct (main_missing_key scripted disk_exists disk_read disk_write None
              (λ _, inr tt) (λ _, "<frame>") (λ _, "not in index")
              (mkMachine [(input_file, games)] (mkWorld ∅ answers []))
              (or_introl eq_refl))
    as (st' & new & H & Hfiles & _).
  split; [exact (f_equal fst H) |].
  exact (eq_trans (f_equal (λ r, files r.2) H) Hfiles).
Defined.


Lemma main_missing_title_column_witness :
  (stub_main [(input_file, untitled)] (Some "key") answers).1 = inl (SystemExit 1)
  ∧ files (stub_main [(input_file, untitled)] (Some "key") answers).2
    = [(input_file, untitled)].
Proof.
  unfold stub_main.
  destruct (main_missing_title_column scripted disk_exists disk_read disk_write
              (Some "key") (λ _, inr tt) (λ _, "<frame>") (λ _, "not in index")
              (mkMachine [(input_file, untitled)] (mkWorld ∅ answers []))
              untitled eq_refl eq_refl)
    as (st' & new & H & Hfiles & _); [vm_compute; lia | reflexivity |].
  split; [exact (f_equal fst H) |].
  exact (eq_trans (f_equal (λ r, files r.2) H) Hfiles).
Defined.

Lemma main_success_witness :
  (stub_main [(input_file, games)] (Some "key") answers).1 = inr tt
  ∧ ∃ os, files (stub_main [(input_file, games)] (Some "key") answers).2
          = [(output_file, enriched games os); (input_file, games)].
Proof.
  unfold stub_main.
  edestruct (main_success scripted disk_exists disk_read disk_write (Some "key")
               (λ _, inr tt) (λ _, "<frame>") (λ _, "not in index")
               (mkMachine [(input_file, games)] (mkWorld ∅ answers []))
               games ["Chess Master 3000"; "Pong"] (mkEnricher "key" 5))
    as (st' & new & H & Hfiles & _).
  - reflexivity.
  - reflexivity.
  - by_decide.
  - reflexivity.
  - vm_compute. lia.
  - reflexivity.
  - vm_compute. reflexivity.
  - reflexivity.
  - split; [exact (f_equal fst H) |]. eexists.
    exact (eq_trans (f_equal (λ r, files r.2) H) Hfiles).
Defined.
